(** * go-peek: asset cache and enrichment handler

    A shallow embedding of [pkg/enrich/enrich.go] and [pkg/intel/global.go].
    Go maps are finite maps ([gmap]), byte slices and strings are [string]
    (sequences of 8-bit characters), [uint] counters are integers that wrap
    at 2^64, pointers that may be nil are [option], and a method that mutates
    its receiver returns the receiver's new state next to its results. *)

From Stdlib Require Import ZArith Ascii.
From stdpp Require Import gmap strings list fin_maps pretty.

(** ** Machine integers *)

(** Go's [uint] on a 64-bit target. *)
Definition uint_modulus : Z := (2 ^ 64)%Z.

(** [n++] on a [uint]. *)
Definition uint_incr (n : Z) : Z := ((n + 1) mod uint_modulus)%Z.

(** ** Package meta *)

Module meta.

(** Modelled from the spec: [NetSegment] is declared in package meta, outside
    the sources at hand; a named network range. *)
Record NetSegment := mkNetSegment {
  Name : string;
  CIDR : string
}.

(** Modelled from the spec: [Asset] is declared in package meta, outside the
    sources at hand. The fields are the ones the code reads: [IP] is a
    [net.IP] (a byte slice, nil when unset), [Host] a string. *)
Record Asset := mkAsset {
  Host : string;
  IP : option (list N);
  Segment : option NetSegment
}.

(** The zero value of the struct. *)
Definition zero : Asset := {| Host := ""; IP := None; Segment := None |}.

(** Modelled from the spec: [GameAsset] is the asset sub-object of an event:
    the asset itself by value, source and destination by pointer. *)
Record GameAsset := mkGameAsset {
  Asset_ : Asset;
  Source : option Asset;
  Destination : option Asset
}.

End meta.

(** ** Package events *)

Module events.

(** Modelled from the spec: [Atomic] is declared in package events, outside
    the sources at hand. It is an integer-backed enumeration; the five
    constants [Decode] switches on are constructors of their own and every
    other value of the type is an [OtherE]. *)
Inductive Atomic :=
| SuricataE
| EventLogE
| SysmonE
| SyslogE
| SnoopyE
| OtherE (tag : Z).

(** Modelled from the spec: the event structs are declared in package
    events, outside the sources at hand. Each is kept as its decoded fields
    (opaque here) and the asset sub-object that [GetAsset] hands out by
    pointer, nil when the event has none. *)
Record Object := mkObject {
  Fields : string;
  GameMeta : option meta.GameAsset
}.

(** The interface [GameEvent] holds a pointer to one of the four structs. *)
Inductive GameEvent :=
| Suricata (obj : Object)
| DynamicWinlogbeat (obj : Object)
| Syslog (obj : Object)
| Snoopy (obj : Object).

Definition object (e : GameEvent) : Object :=
  match e with
  | Suricata o | DynamicWinlogbeat o | Syslog o | Snoopy o => o
  end.

Definition GetAsset (e : GameEvent) : option meta.GameAsset :=
  GameMeta (object e).

(** Writing through the pointer [GetAsset] returned. *)
Definition set_asset (e : GameEvent) (ga : meta.GameAsset) : GameEvent :=
  let upd o := {| Fields := Fields o; GameMeta := Some ga |} in
  match e with
  | Suricata o => Suricata (upd o)
  | DynamicWinlogbeat o => DynamicWinlogbeat (upd o)
  | Syslog o => Syslog (upd o)
  | Snoopy o => Snoopy (upd o)
  end.

End events.

(** ** External packages *)

(** [net.IP.String] of the Go standard library, taken as given. *)
Class Net := { IP_String : list N → string }.

Module providentia.

(** Modelled from the spec: [Record] is declared in package providentia,
    outside the sources at hand: a registry record with the lookup keys
    [Keys()] returns and the projection [Asset()] returns. *)
Record Record_ := mkRecord {
  Keys : list string;
  Asset : meta.Asset
}.

End providentia.

Module persist.

(** One element of the stream [Scan] yields: a key and gob-encoded bytes. *)
Record Item := mkItem {
  Key : string;
  Data : string
}.

(** Modelled from the spec: the Badger store is declared in package persist,
    outside the sources at hand: per prefix, the stored items in the order a
    scan yields them. *)
Record Badger := mkBadger {
  content : gmap string (list Item)
}.

Definition Scan (b : Badger) (prefix : string) : list Item :=
  default [] (content b !! prefix).

(** Modelled from the spec: [Set] stores the bytes under the key within the
    prefix; a key that is there keeps its place and gets the new bytes, a new
    key goes to the end of the scan. *)
Fixpoint put (it : Item) (l : list Item) : list Item :=
  match l with
  | [] => [it]
  | x :: l' => if decide (Key x = Key it) then it :: l' else x :: put it l'
  end.

Definition Set_ (b : Badger) (prefix : string) (it : Item) : Badger :=
  {| content := <[prefix := put it (Scan b prefix)]> (content b) |}.

End persist.

(** ** Package enrich *)

Module enrich.

(** The errors this package hands out; an error of encoding/json or
    encoding/gob is passed on as it is and kept by its message. *)
Inductive error :=
| ErrMissingPersist
| ErrMissingAssetData (Event : events.GameEvent)
| ErrJSON (msg : string)
| ErrGob (msg : string).

(** The decoders of the standard library: [json.Unmarshal] at each of the four
    target types and gob's [Decode] at [providentia.Record]; the right summand
    is the error. *)
Class Codec := {
  Unmarshal_Suricata : string → events.Object + string;
  Unmarshal_DynamicWinlogbeat : string → events.Object + string;
  Unmarshal_Syslog : string → events.Object + string;
  Unmarshal_Snoopy : string → events.Object + string;
  gob_Decode : string → providentia.Record_ + string
}.

Definition badgerPrefix : string := "assets".

Record Config := mkConfig {
  Persist : option persist.Badger
}.

Definition Validate (c : Config) : option error :=
  match Persist c with
  | None => Some ErrMissingPersist
  | Some _ => None
  end.

Record countsParseErrs := mkParseErrs {
  Suricata : Z;
  Windows : Z;
  Syslog : Z;
  Snoopy : Z
}.

Record Counts := mkCounts {
  Events : Z;
  MissingMeta : Z;
  AssetPickups : Z;
  AssetUpdates : Z;
  Assets : Z;
  ParseErrs : countsParseErrs
}.

Record Handler := mkHandler {
  counts : Counts;
  missingLookupSet : gmap string bool;
  assets : gmap string providentia.Record_;
  persist_ : option persist.Badger
}.

Definition set_counts (f : Counts → Counts) (h : Handler) : Handler :=
  {| counts := f (counts h);
     missingLookupSet := missingLookupSet h;
     assets := assets h;
     persist_ := persist_ h |}.

Definition set_ParseErrs (f : countsParseErrs → countsParseErrs) (c : Counts) : Counts :=
  {| Events := Events c; MissingMeta := MissingMeta c;
     AssetPickups := AssetPickups c; AssetUpdates := AssetUpdates c;
     Assets := Assets c; ParseErrs := f (ParseErrs c) |}.

Definition incr_Events (c : Counts) : Counts :=
  {| Events := uint_incr (Events c); MissingMeta := MissingMeta c;
     AssetPickups := AssetPickups c; AssetUpdates := AssetUpdates c;
     Assets := Assets c; ParseErrs := ParseErrs c |}.

Definition incr_Suricata (p : countsParseErrs) : countsParseErrs :=
  {| Suricata := uint_incr (Suricata p); Windows := Windows p;
     Syslog := Syslog p; Snoopy := Snoopy p |}.

Definition incr_Windows (p : countsParseErrs) : countsParseErrs :=
  {| Suricata := Suricata p; Windows := uint_incr (Windows p);
     Syslog := Syslog p; Snoopy := Snoopy p |}.

Definition incr_Syslog (p : countsParseErrs) : countsParseErrs :=
  {| Suricata := Suricata p; Windows := Windows p;
     Syslog := uint_incr (Syslog p); Snoopy := Snoopy p |}.

Definition incr_Snoopy (p : countsParseErrs) : countsParseErrs :=
  {| Suricata := Suricata p; Windows := Windows p;
     Syslog := Syslog p; Snoopy := uint_incr (Snoopy p) |}.

(** The four parse-error counters by name, how one is read, and the one under
    which the switch of [Decode] counts a kind (none for a kind without a
    case). *)
Inductive counter :=
| CSuricata
| CWindows
| CSyslog
| CSnoopy.

#[export] Instance counter_eq_dec : EqDecision counter.
Proof. solve_decision. Defined.

Definition read (c : counter) (p : countsParseErrs) : Z :=
  match c with
  | CSuricata => Suricata p
  | CWindows => Windows p
  | CSyslog => Syslog p
  | CSnoopy => Snoopy p
  end.

Definition counter_of (kind : events.Atomic) : option counter :=
  match kind with
  | events.SuricataE => Some CSuricata
  | events.EventLogE | events.SysmonE => Some CWindows
  | events.SyslogE => Some CSyslog
  | events.SnoopyE => Some CSnoopy
  | events.OtherE _ => None
  end.

(** [MissingKeys]: the keys of the set, in the map's iteration order. *)
Definition MissingKeys (h : Handler) : list string :=
  (map_to_list (missingLookupSet h)).*1.

Section with_codec.
Context `{!Codec} `{!Net}.

Definition Decode (h : Handler) (raw : string) (kind : events.Atomic)
  : Handler * option events.GameEvent * option error :=
  let h := set_counts incr_Events h in
  match kind with
  | events.SuricataE =>
      match Unmarshal_Suricata raw with
      | inr err =>
          (set_counts (set_ParseErrs incr_Suricata) h, None, Some (ErrJSON err))
      | inl obj => (h, Some (events.Suricata obj), None)
      end
  | events.EventLogE | events.SysmonE =>
      match Unmarshal_DynamicWinlogbeat raw with
      | inr err =>
          (set_counts (set_ParseErrs incr_Windows) h, None, Some (ErrJSON err))
      | inl obj => (h, Some (events.DynamicWinlogbeat obj), None)
      end
  | events.SyslogE =>
      match Unmarshal_Syslog raw with
      | inr err =>
          (set_counts (set_ParseErrs incr_Syslog) h, None, Some (ErrJSON err))
      | inl obj => (h, Some (events.Syslog obj), None)
      end
  | events.SnoopyE =>
      match Unmarshal_Snoopy raw with
      | inr err =>
          (set_counts (set_ParseErrs incr_Snoopy) h, None, Some (ErrJSON err))
      | inl obj => (h, Some (events.Snoopy obj), None)
      end
  | events.OtherE _ => (h, None, None)
  end.

(** The decoder the switch of [Decode] applies to a kind. *)
Definition unmarshal_of (kind : events.Atomic)
  : option (string → events.Object + string) :=
  match kind with
  | events.SuricataE => Some Unmarshal_Suricata
  | events.EventLogE | events.SysmonE => Some Unmarshal_DynamicWinlogbeat
  | events.SyslogE => Some Unmarshal_Syslog
  | events.SnoopyE => Some Unmarshal_Snoopy
  | events.OtherE _ => None
  end.

(** [assetLookup] has a value receiver, but the maps of the handler are
    shared with it, so the write to the missing set is seen by the
    caller: the handler is returned with the result. *)
Definition assetLookup (h : Handler) (asset : meta.Asset)
  : Handler * meta.Asset :=
  let by_ip :=
    match meta.IP asset with
    | Some ip => assets h !! IP_String ip
    | None => None
    end in
  match by_ip with
  | Some val => (h, providentia.Asset val)
  | None =>
      if decide (meta.Host asset = "") then (h, asset)
      else
        match assets h !! meta.Host asset with
        | Some val => (h, providentia.Asset val)
        | None =>
            ({| counts := counts h;
                missingLookupSet := <[meta.Host asset := true]> (missingLookupSet h);
                assets := assets h;
                persist_ := persist_ h |}, asset)
        end
  end.

(** A pointer field is looked up only when it is not nil. *)
Definition lookup_ptr (h : Handler) (p : option meta.Asset)
  : Handler * option meta.Asset :=
  match p with
  | None => (h, None)
  | Some a => let '(h', a') := assetLookup h a in (h', Some a')
  end.

Definition Enrich (h : Handler) (event : events.GameEvent)
  : Handler * events.GameEvent * option error :=
  match events.GetAsset event with
  | None => (h, event, Some (ErrMissingAssetData event))
  | Some fullAsset =>
      let '(h1, a) := assetLookup h (meta.Asset_ fullAsset) in
      let '(h2, s) := lookup_ptr h1 (meta.Source fullAsset) in
      let '(h3, d) := lookup_ptr h2 (meta.Destination fullAsset) in
      (h3,
       events.set_asset event
         {| meta.Asset_ := a; meta.Source := s; meta.Destination := d |},
       None)
  end.

(** The loop of [NewHandler] over the scanned items: every key of a decoded
    record is assigned that record; the first item that does not decode ends
    the construction with its error. *)
Fixpoint load (records : list persist.Item)
    (assets : gmap string providentia.Record_)
  : gmap string providentia.Record_ + error :=
  match records with
  | [] => inl assets
  | record :: rest =>
      match gob_Decode (persist.Data record) with
      | inr err => inr (ErrGob err)
      | inl obj =>
          load rest
            (foldl (λ m key, <[key := obj]> m) assets (providentia.Keys obj))
      end
  end.

Definition NewHandler (c : Config) : option Handler * option error :=
  match Validate c, Persist c with
  | Some err, _ => (None, Some err)
  | None, None => (None, Some ErrMissingPersist)
  | None, Some p =>
      match load (persist.Scan p badgerPrefix) ∅ with
      | inr err => (None, Some err)
      | inl assets =>
          (Some {| persist_ := Some p;
                   assets := assets;
                   missingLookupSet := ∅;
                   counts := {| Events := 0; MissingMeta := 0;
                                AssetPickups := 0; AssetUpdates := 0;
                                Assets := Z.of_nat (size assets);
                                ParseErrs := {| Suricata := 0; Windows := 0;
                                                Syslog := 0; Snoopy := 0 |} |} |},
           None)
      end
  end.

End with_codec.

(** gob in the other direction, as the store applies it to the value of
    [persist.GenericValue] it is handed. *)
Class Encoder := { gob_Encode : providentia.Record_ → string }.

Definition incr_AssetPickups (c : Counts) : Counts :=
  {| Events := Events c; MissingMeta := MissingMeta c;
     AssetPickups := uint_incr (AssetPickups c); AssetUpdates := AssetUpdates c;
     Assets := Assets c; ParseErrs := ParseErrs c |}.

Definition incr_AssetUpdates (c : Counts) : Counts :=
  {| Events := Events c; MissingMeta := MissingMeta c;
     AssetPickups := AssetPickups c; AssetUpdates := uint_incr (AssetUpdates c);
     Assets := Assets c; ParseErrs := ParseErrs c |}.

Definition set_Assets (n : Z) (c : Counts) : Counts :=
  {| Events := Events c; MissingMeta := MissingMeta c;
     AssetPickups := AssetPickups c; AssetUpdates := AssetUpdates c;
     Assets := n; ParseErrs := ParseErrs c |}.

Section with_encoder.
Context `{!Encoder}.

(** The body of the loop of [AddAsset] at one key. A key that is new is
    counted, handed to the store and assigned; the call on the store
    dereferences [h.persist], so a handler without store panics there
    (no handler is returned). The error [Set] returns is dropped. *)
Definition add_key (value : providentia.Record_) (acc : option Handler)
    (key : string) : option Handler :=
  match acc with
  | None => None
  | Some h =>
      match assets h !! key with
      | Some _ => Some h
      | None =>
          match persist_ h with
          | None => None
          | Some p =>
              Some {| counts := incr_AssetUpdates (counts h);
                      missingLookupSet := missingLookupSet h;
                      assets := <[key := value]> (assets h);
                      persist_ :=
                        Some (persist.Set_ p badgerPrefix
                                {| persist.Key := key;
                                   persist.Data := gob_Encode value |}) |}
          end
      end
  end.

Definition AddAsset (h : Handler) (value : providentia.Record_)
  : option Handler :=
  match foldl (add_key value) (Some (set_counts incr_AssetPickups h))
          (providentia.Keys value) with
  | None => None
  | Some h =>
      Some (set_counts (set_Assets (Z.of_nat (size (assets h)))) h)
  end.

End with_encoder.

End enrich.


(** ** Standard library: time, os, bufio *)

Module time.

(** A [Duration] is an int64 count of nanoseconds; an instant is kept as its
    reading in nanoseconds. *)
Definition Nanosecond : Z := 1.
Definition Second : Z := 1000000000.
Definition minDuration : Z := (- 2 ^ 63)%Z.
Definition maxDuration : Z := (2 ^ 63 - 1)%Z.

(** [t.Sub(u)]: the difference, saturated to the range of a [Duration]. *)
Definition Sub (t u : Z) : Z :=
  (if t - u <? minDuration then minDuration
   else if maxDuration <? t - u then maxDuration
   else t - u)%Z.

End time.

Module os.

(** The file system as far as the cache uses it: a path names nothing, a
    directory, a regular file with its bytes, or a device (such as
    /dev/null) with the bytes a read of it delivers; what is written to a
    device does not show in the file system. *)
Inductive node :=
| Dir
| File (content : string)
| Device (reads : string).

Inductive errno := ENOENT | EISDIR.

(** [*os.PathError]. *)
Record PathError := mkPathError {
  Op : string;
  Path : string;
  Err : errno
}.

Record FileInfo := mkFileInfo {
  Name : string;
  IsDir : bool
}.

(** The last element of a path, as [FileInfo.Name] reports it (the root and
    the empty path apart). *)
Fixpoint base_from (path : string) (cur : string) : string :=
  match path with
  | EmptyString => cur
  | String c rest =>
      if Ascii.eqb c "/"%char then
        base_from rest (match rest with EmptyString => cur | _ => EmptyString end)
      else base_from rest (cur +:+ String c EmptyString)
  end.

Definition Stat (fs : gmap string node) (name : string) : FileInfo + PathError :=
  match fs !! name with
  | None => inr {| Op := "stat"; Path := name; Err := ENOENT |}
  | Some Dir => inl {| Name := base_from name ""; IsDir := true |}
  | Some (File _) => inl {| Name := base_from name ""; IsDir := false |}
  | Some (Device _) => inl {| Name := base_from name ""; IsDir := false |}
  end.

(** [os.Open] for reading: the handle is kept as the bytes a read of it will
    deliver; a directory opens, but reading it delivers nothing. *)
Definition Open (fs : gmap string node) (name : string) : string + PathError :=
  match fs !! name with
  | None => inr {| Op := "open"; Path := name; Err := ENOENT |}
  | Some Dir => inl ""
  | Some (File content) => inl content
  | Some (Device reads) => inl reads
  end.

(** [os.Create]: the file is created or truncated; a directory is refused; a
    device is opened and stays what it is. *)
Definition Create (fs : gmap string node) (name : string)
  : gmap string node + PathError :=
  match fs !! name with
  | Some Dir => inr {| Op := "open"; Path := name; Err := EISDIR |}
  | Some (Device _) => inl fs
  | _ => inl (<[name := File ""]> fs)
  end.

(** A write to the handle [os.Create] returned appends to the file; on a
    device it leaves no trace. *)
Definition write (fs : gmap string node) (name : string) (data : string)
  : gmap string node :=
  match fs !! name with
  | Some (File content) => <[name := File (content +:+ data)]> fs
  | _ => fs
  end.

End os.

Module bufio.

Definition MaxScanTokenSize : Z := (64 * 1024)%Z.

(** [dropCR]: one trailing carriage return is dropped from a line. *)
Fixpoint dropCR (line : string) : string :=
  match line with
  | EmptyString => EmptyString
  | String c EmptyString =>
      if Ascii.eqb c "013"%char then EmptyString else line
  | String c rest => String c (dropCR rest)
  end.

(** The tokens a [Scanner] with the default split function [ScanLines] and
    the default buffer delivers over [data]: the lines without their
    terminator; a last line without terminator counts when it is not empty;
    at a line that does not fit the buffer [Scan] gives up and reports
    false, as at the end of the input. [cur] is the line read so far. *)
Fixpoint scan_from (data : string) (cur : string) : list string :=
  match data with
  | EmptyString =>
      match cur with
      | EmptyString => []
      | _ => if (Z.of_nat (String.length cur) <? MaxScanTokenSize)%Z then [dropCR cur] else []
      end
  | String c rest =>
      if Ascii.eqb c "010"%char then
        if (Z.of_nat (String.length cur) <? MaxScanTokenSize)%Z
        then dropCR cur :: scan_from rest EmptyString
        else []
      else scan_from rest (cur +:+ String c EmptyString)
  end.

Definition Scan (data : string) : list string := scan_from data EmptyString.

End bufio.


(** ** Package wise and package utils *)

Module wise.

(** Modelled from the spec: the directory-service client is declared in
    package wise, outside the sources at hand; a configuration names the
    endpoint and a handle is an opened client for it. *)
Record Config := mkConfig {
  Endpoint : string
}.

Record Handle := mkHandle {
  Opened : Config
}.

End wise.

Module utils.

(** Modelled from the spec: [ErrChan] is declared in package utils, outside
    the sources at hand: a bounded queue of errors; once it holds [Max] of
    them, further errors are dropped. *)
Record ErrChan (E : Type) := mkErrChan {
  Max : nat;
  Items : list E
}.
Arguments mkErrChan {E} _ _.
Arguments Max {E} _.
Arguments Items {E} _.

Definition Send {E} (ch : ErrChan E) (err : E) : ErrChan E :=
  if (length (Items ch) <? Max ch)%nat
  then {| Max := Max ch; Items := Items ch ++ [err] |}
  else ch.

(** Modelled from the spec: [FileNotExists] is declared in package utils. *)
Definition FileNotExists (fs : gmap string os.node) (path : string) : bool :=
  bool_decide (fs !! path = None).

End utils.

(** ** Package intel *)

Module intel.

(** Modelled from the spec: the struct [Asset] of this package is declared in
    a file outside the sources at hand: the asset data, the flag [IsAsset]
    and the unexported time of the last update. *)
Record Asset := mkAsset {
  Data : meta.Asset;
  IsAsset : bool;
  updated : Z
}.

(** Modelled from the spec: [Update] stamps the record with the current time. *)
Definition Update (now : Z) (a : Asset) : Asset :=
  {| Data := Data a; IsAsset := IsAsset a; updated := now |}.

(** A value of the cache map: the code stores an [Asset] (at load) or a
    pointer to one (in [GetIP]) and switches on the type wherever it reads. *)
Inductive entry :=
| Val (a : Asset)
| Ptr (a : Asset).

Definition deref (v : entry) : Asset :=
  match v with Val a | Ptr a => a end.

Inductive error :=
| ErrConfig (msg : string)
| ErrPath (e : os.PathError)
| ErrIsDir (name : string)
| ErrJSON (msg : string)
| ErrWise (msg : string).

(** Modelled from the spec: [Config] and the struct [prune] are declared in
    files outside the sources at hand; the fields are the ones the
    constructor reads. *)
Record Config := mkConfig {
  Prune : bool;
  DumpJSONAssets : string;
  Wise : option wise.Config
}.

Record prune := mkPrune {
  enabled : bool;
  interval : Z;
  period : Z
}.

Record persist := mkPersist {
  dump : Z;
  path : string
}.

(** What the package calls outside the sources at hand: the validation of
    its configuration, the directory client, the JSON form of an [Asset] in
    both directions and the constant [FieldPrefix]. *)
Class Extern := {
  Validate : Config → option string;
  NewHandle : wise.Config → option wise.Handle * option string;
  GetAsset : wise.Handle → list N → string → string → string →
             meta.Asset * bool * option string;
  FieldPrefix : string;
  JSON : Asset → string + string;
  Unmarshal : string → Asset + string
}.

Record GlobalCache := mkGlobalCache {
  assets : option (gmap string entry);
  networks : option (gmap string meta.NetSegment);
  persist_ : persist;
  prune_ : prune;
  wise_ : option wise.Handle;
  Errs : utils.ErrChan error
}.

Definition set_assets (m : gmap string entry) (g : GlobalCache) : GlobalCache :=
  {| assets := Some m; networks := networks g; persist_ := persist_ g;
     prune_ := prune_ g; wise_ := wise_ g; Errs := Errs g |}.

Definition send (err : error) (g : GlobalCache) : GlobalCache :=
  {| assets := assets g; networks := networks g; persist_ := persist_ g;
     prune_ := prune_ g; wise_ := wise_ g; Errs := utils.Send (Errs g) err |}.

(** A step of the housekeeper ends normally or in a panic. *)
Inductive outcome (A : Type) :=
| Ok (a : A)
| Panic (why : string) (a : A).
Arguments Ok {A} _.
Arguments Panic {A} _ _.

(** [count++] on an [int]. *)
Definition int_incr (n : Z) : Z :=
  ((n + 1 + 2 ^ 63) mod 2 ^ 64 - 2 ^ 63)%Z.

Definition newline : string := String "010"%char EmptyString.

(** The bytes the dump writes for a list of JSON objects, one per line. *)
Fixpoint unlines (js : list string) : string :=
  match js with
  | [] => EmptyString
  | j :: rest => j +:+ newline +:+ unlines rest
  end.



Section with_extern.
Context `{!Extern} `{!Net}.

(** [ip.String()] on a [net.IP] that may be nil. *)
Definition String_ (ip : option (list N)) : string :=
  IP_String (default [] ip).

(** The loop of the constructor over the lines of the persistence file; the
    i-th call of [time.Now] reads [clock i]. *)
Fixpoint load (lines : list string) (clock : nat → Z) (i : nat)
    (m : gmap string entry) : gmap string entry + error :=
  match lines with
  | [] => inl m
  | line :: rest =>
      match Unmarshal line with
      | inr err => inr (ErrJSON err)
      | inl obj =>
          let obj := Update (clock i) obj in
          load rest clock (S i) (<[String_ (meta.IP (Data obj)) := Val obj]> m)
      end
  end.

(** The set-up of the persistence path in the constructor. *)
Definition setup_persist (c : Config) (fs : gmap string os.node)
    (clock : nat → Z) (gc : GlobalCache) : GlobalCache + error :=
  if decide (DumpJSONAssets c = "") then inl gc
  else
    match os.Stat fs (DumpJSONAssets c) with
    | inr err => inr (ErrPath err)
    | inl file =>
        if os.IsDir file then inr (ErrIsDir (os.Name file))
        else
          let gc :=
            {| assets := assets gc; networks := networks gc;
               persist_ := {| dump := dump (persist_ gc);
                              path := DumpJSONAssets c |};
               prune_ := prune_ gc; wise_ := wise_ gc; Errs := Errs gc |} in
          if utils.FileNotExists fs (path (persist_ gc)) then inl gc
          else
            match os.Open fs (path (persist_ gc)) with
            | inr err => inr (ErrPath err)
            | inl f =>
                match load (bufio.Scan f) clock 0 (default ∅ (assets gc)) with
                | inr err => inr err
                | inl m => inl (set_assets m gc)
                end
            end
    end.

(** The constructor; the housekeeper it starts is [step] below. *)
Definition NewGlobalCache (c : Config) (fs : gmap string os.node)
    (clock : nat → Z) : option GlobalCache * option error :=
  match Validate c with
  | Some err => (None, Some (ErrConfig err))
  | None =>
      let gc :=
        {| assets := Some ∅;
           networks := Some ∅;
           prune_ := {| enabled := if Prune c then true else false;
                        interval := 30 * time.Second;
                        period := 120 * time.Second |};
           Errs := {| utils.Max := 100; utils.Items := [] |};
           persist_ := {| dump := 5 * time.Second; path := "" |};
           wise_ := None |} in
      match setup_persist c fs clock gc with
      | inr err => (None, Some err)
      | inl gc =>
          match Wise c with
          | None => (Some gc, None)
          | Some w =>
              let '(handle, err) := NewHandle w in
              let gc :=
                {| assets := assets gc; networks := networks gc;
                   persist_ := persist_ gc; prune_ := prune_ gc;
                   wise_ := handle; Errs := Errs gc |} in
              match err with
              | Some e => (Some gc, Some (ErrWise e))
              | None => (Some gc, None)
              end
          end
      end
  end.

(** [GetIP]: the record handed out (nil when the map is), whether it was a
    hit, and the cache afterwards. *)
Definition GetIP (g : GlobalCache) (key : list N) (now : Z)
  : GlobalCache * option Asset * bool :=
  match assets g with
  | None => (g, None, false)
  | Some m =>
      match m !! IP_String key with
      | Some (Val v) => (g, Some v, true)
      | Some (Ptr v) => (g, Some v, true)
      | None =>
          let asset := {| Data := meta.zero; IsAsset := false; updated := now |} in
          match wise_ g with
          | None => (g, Some asset, false)
          | Some w =>
              let '(a, ok, err) :=
                GetAsset w key (FieldPrefix +:+ ".original")
                  (FieldPrefix +:+ ".pretty") (FieldPrefix +:+ ".kernel") in
              let '(g, asset) :=
                match err with
                | Some e => (send (ErrWise e) g, asset)
                | None =>
                    if ok
                    then (g, {| Data := a; IsAsset := true; updated := now |})
                    else (g, asset)
                end in
              (set_assets (<[IP_String key := Ptr asset]> m) g, Some asset, false)
          end
      end
  end.

(** The body of the [Range] in the prune branch at one entry: the map so
    far, [count] and [total]. *)
Definition prune_entry (now : Z) (p : prune) (k : string) (v : entry)
    (acc : gmap string entry * Z * Z) : gmap string entry * Z * Z :=
  let '(m, count, total) := acc in
  if bool_decide (period p < time.Sub now (updated (deref v)))%Z
     && negb (IsAsset (deref v))
  then (delete k m, int_incr count, int_incr total)
  else (m, count, int_incr total).

(** The branch of the prune ticker; a [Range] over a nil map panics. *)
Definition on_tick (now : Z) (g : GlobalCache) : outcome GlobalCache :=
  if negb (enabled (prune_ g)) then Ok g
  else
    match assets g with
    | None => Panic "nil map" g
    | Some m =>
        let '(m', _, _) := map_fold (prune_entry now (prune_ g)) (m, 0%Z, 0%Z) m in
        Ok (set_assets m' g)
    end.

(** The [Range] of the dump branch: the confirmed assets, in the order the
    map hands them out. *)
Definition collect (m : gmap string entry) : list Asset :=
  map_fold (λ _ v stuff, if IsAsset (deref v) then stuff ++ [deref v] else stuff)
    [] m.

(** The loop over [stuff]: one JSON object and a newline per asset go to the
    file (the copy of each asset printed to standard output is left out); an
    asset without JSON form panics. *)
Fixpoint write_all (stuff : list Asset) (name : string)
    (fs : gmap string os.node) : outcome (gmap string os.node) :=
  match stuff with
  | [] => Ok fs
  | a :: rest =>
      match JSON a with
      | inr err => Panic err fs
      | inl j => write_all rest name (os.write fs name (j +:+ newline))
      end
  end.

(** The branch of the dump ticker. *)
Definition on_dump (g : GlobalCache) (fs : gmap string os.node)
  : outcome (GlobalCache * gmap string os.node) :=
  if decide (path (persist_ g) = "") then Ok (g, fs)
  else
    match assets g with
    | None => Panic "nil map" (g, fs)
    | Some m =>
        match collect m with
        | [] => Ok (g, fs)
        | stuff =>
            match os.Create fs (path (persist_ g)) with
            | inr err => Ok (send (ErrPath err) g, fs)
            | inl fs' =>
                match write_all stuff (path (persist_ g)) fs' with
                | Ok fs'' => Ok (g, fs'')
                | Panic why fs'' => Panic why (g, fs'')
                end
            end
        end
    end.


(** *** The loop of the housekeeper *)

(** The cases of the select. *)
Inductive signal :=
| Done
| Tick
| Dump.

#[export] Instance signal_eq_dec : EqDecision signal.
Proof. solve_decision. Defined.

(** Every turn of the loop makes two new tickers at its start [t0] and then
    selects. A ticker of period d made at t0 delivers first at t0 + d; the
    context is done from the instant of the cancellation on. *)
Definition ready (cancel : option Z) (g : GlobalCache) (t0 : Z)
  : list (signal * Z) :=
  match cancel with
  | Some c => [(Done, Z.max c t0)]
  | None => []
  end
  ++ [(Tick, (t0 + interval (prune_ g))%Z); (Dump, (t0 + dump (persist_ g))%Z)].

(** The instant at which the select returns: the first at which a case can
    proceed. *)
Definition wake (cancel : option Z) (g : GlobalCache) (t0 : Z) : Z :=
  foldr Z.min (t0 + interval (prune_ g))%Z (ready cancel g t0).*2.

(** The cases the select may take: those that can proceed at that instant. *)
Definition select (cancel : option Z) (g : GlobalCache) (t0 : Z) : list signal :=
  (filter (λ x, x.2 = wake cancel g t0) (ready cancel g t0)).*1.

Record state := mkState {
  at_ : Z;
  cache : GlobalCache;
  files : gmap string os.node
}.

(** One turn of the loop whose select took [sig]; [now] is what [time.Now]
    reads in the branch. The result is the state for the next turn, or none
    when the loop is left. [time.NewTicker] panics on a period that is not
    positive. *)
Definition turn (sig : signal) (now : Z) (st : state) : outcome (option state) :=
  if bool_decide (interval (prune_ (cache st)) ≤ 0)%Z
     || bool_decide (dump (persist_ (cache st)) ≤ 0)%Z
  then Panic "non-positive interval for NewTicker" (Some st)
  else
    match sig with
    | Done => Ok None
    | Tick =>
        match on_tick now (cache st) with
        | Ok g => Ok (Some {| at_ := at_ st; cache := g; files := files st |})
        | Panic why g =>
            Panic why (Some {| at_ := at_ st; cache := g; files := files st |})
        end
    | Dump =>
        match on_dump (cache st) (files st) with
        | Ok (g, fs) => Ok (Some {| at_ := at_ st; cache := g; files := fs |})
        | Panic why (g, fs) =>
            Panic why (Some {| at_ := at_ st; cache := g; files := fs |})
        end
    end.

(** A turn that comes back to the head of the loop: the select takes one of
    the cases that can proceed first, the branch runs no earlier than that,
    and the next turn starts no earlier than the branch. *)
Inductive step (cancel : option Z) : state → state → Prop :=
| step_turn st sig now next st' :
    sig ∈ select cancel (cache st) (at_ st) →
    (wake cancel (cache st) (at_ st) ≤ now)%Z →
    (now ≤ next)%Z →
    turn sig now st = Ok (Some st') →
    step cancel st {| at_ := next; cache := cache st'; files := files st' |}.

End with_extern.

End intel.


(** ** Concrete instances and inputs *)

Module sample.

(** Dotted decimal, as [net.IP.String] prints an IPv4 address. *)
Definition dotted (ip : list N) : string := String.concat "." (pretty <$> ip).

#[export] Instance net : Net := {| IP_String := dotted |}.

Definition web01 : providentia.Record_ :=
  {| providentia.Keys := ["10.0.0.1"; "web01"];
     providentia.Asset := {| meta.Host := "web01"; meta.IP := Some [10; 0; 0; 1]%N;
                             meta.Segment := None |} |}.

Definition web01_moved : providentia.Record_ :=
  {| providentia.Keys := ["10.0.0.7"; "web01"];
     providentia.Asset := {| meta.Host := "web01"; meta.IP := Some [10; 0; 0; 7]%N;
                             meta.Segment := None |} |}.

(** A decoder that, like [json.Unmarshal], refuses the empty input whatever
    the target type, and a gob decoder that knows two records. *)
Definition unmarshal (raw : string) : events.Object + string :=
  if decide (raw = "") then inr "unexpected end of JSON input"
  else inl {| events.Fields := raw; events.GameMeta := None |}.

#[export] Instance codec : enrich.Codec :=
  {| enrich.Unmarshal_Suricata := unmarshal;
     enrich.Unmarshal_DynamicWinlogbeat := unmarshal;
     enrich.Unmarshal_Syslog := unmarshal;
     enrich.Unmarshal_Snoopy := unmarshal;
     enrich.gob_Decode data :=
       if decide (data = "gob:web01") then inl web01
       else if decide (data = "gob:web01_moved") then inl web01_moved
       else inr "gob: unknown type" |}.

Definition store : persist.Badger :=
  {| persist.content :=
       {[ "assets" := [ {| persist.Key := "10.0.0.1"; persist.Data := "gob:web01" |};
                        {| persist.Key := "10.0.0.7"; persist.Data := "gob:web01_moved" |} ] ]} |}.

Definition handler : enrich.Handler :=
  {| enrich.counts :=
       {| enrich.Events := 0; enrich.MissingMeta := 0; enrich.AssetPickups := 0;
          enrich.AssetUpdates := 0; enrich.Assets := 2;
          enrich.ParseErrs := {| enrich.Suricata := 0; enrich.Windows := 0;
                                 enrich.Syslog := 0; enrich.Snoopy := 0 |} |};
     enrich.missingLookupSet := ∅;
     enrich.assets := {[ "10.0.0.1" := web01; "web01" := web01 ]};
     enrich.persist_ := Some store |}.

Definition stub (host : string) : meta.Asset :=
  {| meta.Host := host; meta.IP := None; meta.Segment := None |}.

Definition alert (host : string) : events.GameEvent :=
  events.Suricata
    {| events.Fields := "alert";
       events.GameMeta :=
         Some {| meta.Asset_ := stub host; meta.Source := None;
                 meta.Destination := Some (stub "web01") |} |}.

Definition config : enrich.Config := {| enrich.Persist := Some store |}.

(** A syslog line that came without asset data. *)
Definition bare : events.GameEvent :=
  events.Syslog {| events.Fields := "line"; events.GameMeta := None |}.

(** An encoder for the two records the sample decoder knows. *)
#[export] Instance encoder : enrich.Encoder :=
  {| enrich.gob_Encode r :=
       if decide (providentia.Keys r = providentia.Keys web01) then "gob:web01"
       else if decide (providentia.Keys r = providentia.Keys web01_moved)
            then "gob:web01_moved"
            else "gob:other" |}.

(** A store with one undecodable item between two good ones. *)
Definition damaged : persist.Badger :=
  {| persist.content :=
       {[ "assets" := [ {| persist.Key := "10.0.0.1"; persist.Data := "gob:web01" |};
                        {| persist.Key := "10.0.0.3"; persist.Data := "junk" |};
                        {| persist.Key := "10.0.0.7"; persist.Data := "gob:web01_moved" |} ] ]} |}.

(** A store that holds web01 under its address, and the handler
    [NewHandler] builds from it. *)
Definition small_store : persist.Badger :=
  {| persist.content :=
       {[ "assets" := [ {| persist.Key := "10.0.0.1"; persist.Data := "gob:web01" |} ] ]} |}.

Definition small : enrich.Handler :=
  {| enrich.counts := enrich.counts handler;
     enrich.missingLookupSet := ∅;
     enrich.assets := {[ "10.0.0.1" := web01; "web01" := web01 ]};
     enrich.persist_ := Some small_store |}.

(** An alert whose three stubs all name hosts. *)
Definition flow (host src dst : string) : events.GameEvent :=
  events.Suricata
    {| events.Fields := "flow";
       events.GameMeta :=
         Some {| meta.Asset_ := stub host; meta.Source := Some (stub src);
                 meta.Destination := Some (stub dst) |} |}.

(** *** The cache *)

Definition confirmed (host : string) (ip : list N) : intel.Asset :=
  {| intel.Data := {| meta.Host := host; meta.IP := Some ip; meta.Segment := None |};
     intel.IsAsset := true;
     intel.updated := 0 |}.

Definition db01 : intel.Asset := confirmed "db01" [10; 0; 0; 5]%N.
Definition db02 : intel.Asset := confirmed "db02" [10; 0; 0; 6]%N.

(** A directory that knows no address, and a JSON form that reads back the
    two lines it knows; the time of the last update is not part of it. *)
#[export] Instance extern : intel.Extern :=
  {| intel.Validate _ := None;
     intel.NewHandle w := (Some {| wise.Opened := w |}, None);
     intel.GetAsset _ _ _ _ _ := (meta.zero, false, None);
     intel.FieldPrefix := "target";
     intel.JSON a :=
       inl ("{Host:" +:+ meta.Host (intel.Data a)
            +:+ ",IP:" +:+ dotted (default [] (meta.IP (intel.Data a)))
            +:+ ",IsAsset:" +:+ (if intel.IsAsset a then "true" else "false")
            +:+ "}");
     intel.Unmarshal line :=
       if decide (line = "{Host:db01,IP:10.0.0.5,IsAsset:true}") then inl db01
       else if decide (line = "{Host:db02,IP:10.0.0.6,IsAsset:true}") then inl db02
       else inr "invalid character" |}.

(** Pruning on, no persistence, no directory. *)
Definition plain : intel.Config :=
  {| intel.Prune := true; intel.DumpJSONAssets := ""; intel.Wise := None |}.

(** Pruning on, persistence in a file, no directory. *)
Definition persistent : intel.Config :=
  {| intel.Prune := true; intel.DumpJSONAssets := "/var/lib/peek/assets.json";
     intel.Wise := None |}.

Definition clock (i : nat) : Z := (1000 + Z.of_nat i)%Z.

(** The cache the constructor returns for [plain]. *)
Definition fresh : intel.GlobalCache :=
  {| intel.assets := Some ∅;
     intel.networks := Some ∅;
     intel.persist_ := {| intel.dump := 5 * time.Second; intel.path := "" |};
     intel.prune_ := {| intel.enabled := true;
                        intel.interval := 30 * time.Second;
                        intel.period := 120 * time.Second |};
     intel.wise_ := None;
     intel.Errs := {| utils.Max := 100; utils.Items := [] |} |}.

(** A negative entry written at time 0 next to a confirmed asset. *)
Definition unknown : intel.Asset :=
  {| intel.Data := meta.zero; intel.IsAsset := false; intel.updated := 0 |}.

Definition stocked : intel.GlobalCache :=
  intel.set_assets {[ "10.0.0.9" := intel.Ptr unknown; "10.0.0.5" := intel.Val db01 ]}
    fresh.

(** The sample cache with the persistence path set and nothing in it, and a
    file system whose persistence file holds one line of an earlier run. *)
Definition idle : intel.GlobalCache :=
  {| intel.assets := Some ∅;
     intel.networks := Some ∅;
     intel.persist_ := {| intel.dump := 5 * time.Second;
                          intel.path := "/var/lib/peek/assets.json" |};
     intel.prune_ := intel.prune_ fresh;
     intel.wise_ := None;
     intel.Errs := intel.Errs fresh |}.

Definition disk (content : string) : gmap string os.node :=
  {[ "/var/lib/peek/assets.json" := os.File content ]}.


Definition earlier_run : string :=
  "{Host:db02,IP:10.0.0.6,IsAsset:true}" +:+ intel.newline.


(** A directory that confirms 10.0.0.5 as db01, fails on 10.0.0.66 and
    knows nothing else; its JSON form refuses the host [bad]. *)
#[export] Instance directory : intel.Extern :=
  {| intel.Validate _ := None;
     intel.NewHandle w := (Some {| wise.Opened := w |}, None);
     intel.GetAsset _ key _ _ _ :=
       if decide (key = [10; 0; 0; 5]%N) then (intel.Data db01, true, None)
       else if decide (key = [10; 0; 0; 66]%N) then (meta.zero, false, Some "timeout")
       else (meta.zero, false, None);
     intel.FieldPrefix := "target";
     intel.JSON a :=
       if decide (meta.Host (intel.Data a) = "bad") then inr "unsupported value"
       else intel.JSON (Extern := extern) a;
     intel.Unmarshal := intel.Unmarshal (Extern := extern) |}.

(** The new cache with a directory handle. *)
Definition served : intel.GlobalCache :=
  {| intel.assets := Some ∅;
     intel.networks := Some ∅;
     intel.persist_ := intel.persist_ fresh;
     intel.prune_ := intel.prune_ fresh;
     intel.wise_ := Some {| wise.Opened := {| wise.Endpoint := "http://wise:8081" |} |};
     intel.Errs := intel.Errs fresh |}.

(** The persistent cache with a confirmed asset that has no JSON form. *)
Definition bad : intel.Asset := confirmed "bad" [10; 0; 0; 4]%N.

Definition spoiled : intel.GlobalCache :=
  intel.set_assets {[ "10.0.0.4" := intel.Val bad ]} idle.

(** The persistent cache with a negative entry next to the two assets. *)
Definition mixed : intel.GlobalCache :=
  intel.set_assets
    {[ "10.0.0.5" := intel.Ptr db01; "10.0.0.6" := intel.Val db02;
       "10.0.0.9" := intel.Ptr unknown ]} idle.

(** Two lines for db02 and one for db01 in between. *)
Definition twice : string :=
  earlier_run +:+ "{Host:db01,IP:10.0.0.5,IsAsset:true}" +:+ intel.newline
  +:+ earlier_run.

End sample.

(** * Properties *)

(** ** The enrichment handler *)

Module enrich_facts.
Import enrich.

Section decode.
Context `{!Codec}.

Lemma Decode_Events h raw kind :
  Events (counts (Decode h raw kind).1.1) = uint_incr (Events (counts h)).
Proof.
  destruct kind; simpl;
    repeat match goal with |- context [match ?u raw with _ => _ end] =>
      destruct (u raw) end; reflexivity.
Qed.

(** C9. A kind without a case in the switch: [Decode] returns neither an
    event nor an error, counts the event in the total and no parse error. *)
Theorem Decode_unhandled_kind h raw tag :
  ∃ h', Decode h raw (events.OtherE tag) = (h', None, None)
        ∧ Events (counts h') = uint_incr (Events (counts h))
        ∧ ParseErrs (counts h') = ParseErrs (counts h).
Proof. eexists; split; [reflexivity | split; reflexivity]. Qed.

(** C5, as amended. [Decode] counts the event in the total whatever the
    outcome. When the decoder of the kind refuses the input, the result is
    no event and the decoder's own error, not wrapped; the parse-error
    counter of the kind is incremented (EventLogE and SysmonE share the
    Windows counter) and the other three are left alone. *)
Theorem Decode_counts_and_passes_error_on h raw kind :
  Events (counts (Decode h raw kind).1.1) = uint_incr (Events (counts h))
  ∧ ∀ unmarshal msg,
      unmarshal_of kind = Some unmarshal →
      unmarshal raw = inr msg →
      ∃ h', Decode h raw kind = (h', None, Some (ErrJSON msg))
            ∧ ∀ c, read c (ParseErrs (counts h')) =
                   if decide (counter_of kind = Some c)
                   then uint_incr (read c (ParseErrs (counts h)))
                   else read c (ParseErrs (counts h)).
Proof.
  split; [apply Decode_Events |].
  intros unmarshal msg Hof Hfail.
  destruct kind; simpl in Hof; simplify_eq; simpl; rewrite Hfail;
    (eexists; split; [reflexivity |]); intros []; reflexivity.
Qed.

(** The two kinds of Windows events are decoded alike. *)
Lemma Decode_EventLogE_SysmonE h raw :
  Decode h raw events.EventLogE = Decode h raw events.SysmonE.
Proof. reflexivity. Qed.

End decode.

(** C5, the witness: an empty Suricata record. *)
Lemma Decode_counts_and_passes_error_on_witness :
  ∃ h', @Decode sample.codec sample.handler "" events.SuricataE
          = (h', None, Some (ErrJSON "unexpected end of JSON input"))
        ∧ read CSuricata (ParseErrs (counts h')) = 1%Z
        ∧ read CWindows (ParseErrs (counts h')) = 0%Z.
Proof.
  destruct (proj2 (@Decode_counts_and_passes_error_on sample.codec sample.handler ""
                     events.SuricataE)
              sample.unmarshal "unexpected end of JSON input"
              eq_refl eq_refl) as (h' & Heq & Hread).
  exists h'. split; [exact Heq |].
  split; [exact (Hread CSuricata) | exact (Hread CWindows)].
Defined.

(** C5, as stated, fails: the error [Decode] returns does not name the kind.
    The same empty input fails as an EventLogE and as a SysmonE record with
    one and the same error, so no reading of the error gives the kind back. *)
Lemma Decode_error_names_no_kind :
  ¬ ∃ kind_of : error → events.Atomic,
      ∀ kind h' err,
        is_Some (counter_of kind) →
        @Decode sample.codec sample.handler "" kind = (h', None, Some err) →
        kind_of err = kind.
Proof.
  intros (kind_of & Hnames).
  pose proof (Hnames events.EventLogE _ _ (mk_is_Some _ _ eq_refl) eq_refl) as H1.
  pose proof (Hnames events.SysmonE _ _ (mk_is_Some _ _ eq_refl) eq_refl) as H2.
  rewrite H1 in H2. discriminate H2.
Qed.

Section lookup.
Context `{!Codec} `{!Net}.

(** The key [assetLookup] tries first: the printed IP, when there is one. *)
Lemma assetLookup_ip_hit h stub ip val :
  meta.IP stub = Some ip → assets h !! IP_String ip = Some val →
  assetLookup h stub = (h, providentia.Asset val).
Proof. intros Hip Hval. unfold assetLookup. rewrite Hip, Hval. reflexivity. Qed.

Lemma assetLookup_host_hit h stub val :
  (meta.IP stub ≫= λ ip, assets h !! IP_String ip) = None →
  meta.Host stub ≠ "" → assets h !! meta.Host stub = Some val →
  assetLookup h stub = (h, providentia.Asset val).
Proof.
  intros Hip Hhost Hval. unfold assetLookup.
  destruct (meta.IP stub) as [ip|]; simpl in Hip; rewrite ?Hip;
    (destruct (decide (meta.Host stub = "")); [done |]);
    rewrite Hval; reflexivity.
Qed.

Lemma assetLookup_host_miss h stub :
  (meta.IP stub ≫= λ ip, assets h !! IP_String ip) = None →
  meta.Host stub ≠ "" → assets h !! meta.Host stub = None →
  assetLookup h stub =
    ({| counts := counts h;
        missingLookupSet := <[meta.Host stub := true]> (missingLookupSet h);
        assets := assets h;
        persist_ := persist_ h |}, stub).
Proof.
  intros Hip Hhost Hval. unfold assetLookup.
  destruct (meta.IP stub) as [ip|]; simpl in Hip; rewrite ?Hip;
    (destruct (decide (meta.Host stub = "")); [done |]);
    rewrite Hval; reflexivity.
Qed.

Lemma assetLookup_no_host h stub :
  (meta.IP stub ≫= λ ip, assets h !! IP_String ip) = None →
  meta.Host stub = "" →
  assetLookup h stub = (h, stub).
Proof.
  intros Hip Hhost. unfold assetLookup.
  destruct (meta.IP stub) as [ip|]; simpl in Hip; rewrite ?Hip;
    (destruct (decide (meta.Host stub = "")); [reflexivity | done]).
Qed.

(** Whatever the outcome, a lookup touches nothing but the missing set, and
    there it can only add the host of the stub. *)
Lemma assetLookup_frame h stub :
  let h' := (assetLookup h stub).1 in
  assets h' = assets h ∧ counts h' = counts h ∧ persist_ h' = persist_ h
  ∧ (missingLookupSet h' = missingLookupSet h
     ∨ missingLookupSet h' = <[meta.Host stub := true]> (missingLookupSet h)
       ∧ meta.Host stub ≠ "" ∧ assets h !! meta.Host stub = None).
Proof.
  unfold assetLookup.
  destruct (match meta.IP stub with Some ip => _ | None => _ end); simpl; [tauto |].
  destruct (decide (meta.Host stub = "")); simpl; [tauto |].
  destruct (assets h !! meta.Host stub) eqn:E; simpl; tauto.
Qed.

(** The result of a lookup depends on the registry only. *)
Lemma assetLookup_result h1 h2 stub :
  assets h1 = assets h2 → (assetLookup h1 stub).2 = (assetLookup h2 stub).2.
Proof.
  intros Heq. unfold assetLookup. rewrite Heq.
  destruct (match meta.IP stub with Some ip => _ | None => _ end); [reflexivity |].
  destruct (decide (meta.Host stub = "")); [reflexivity |].
  destruct (assets h2 !! meta.Host stub); reflexivity.
Qed.

Lemma assetLookup_keeps_missing h stub k :
  is_Some (missingLookupSet h !! k) →
  is_Some (missingLookupSet (assetLookup h stub).1 !! k).
Proof.
  intros Hk. destruct (assetLookup_frame h stub) as (_ & _ & _ & [-> | [-> _]]);
    [exact Hk |].
  destruct (decide (meta.Host stub = k)) as [-> | Hne].
  - rewrite lookup_insert_eq. eauto.
  - rewrite lookup_insert_ne by exact Hne. exact Hk.
Qed.

Lemma lookup_ptr_frame h p :
  let h' := (lookup_ptr h p).1 in
  assets h' = assets h
  ∧ (lookup_ptr h p).2 = (λ a, (assetLookup h a).2) <$> p
  ∧ ∀ k, is_Some (missingLookupSet h !! k) → is_Some (missingLookupSet h' !! k).
Proof.
  destruct p as [a|]; simpl; [| done].
  pose proof (assetLookup_frame h a) as (Ha & _).
  pose proof (assetLookup_keeps_missing h a) as Hk.
  destruct (assetLookup h a) as [h' a']; simpl in *. done.
Qed.

Lemma Enrich_keeps_missing h event k :
  is_Some (missingLookupSet h !! k) →
  is_Some (missingLookupSet (Enrich h event).1.1 !! k).
Proof.
  intros Hk. unfold Enrich. destruct (events.GetAsset event) as [ga|]; [| exact Hk].
  pose proof (assetLookup_keeps_missing h (meta.Asset_ ga) k Hk) as H1.
  destruct (assetLookup h (meta.Asset_ ga)) as [h1 a]; simpl in H1.
  pose proof (lookup_ptr_frame h1 (meta.Source ga)) as (_ & _ & H2).
  destruct (lookup_ptr h1 (meta.Source ga)) as [h2 s]; simpl in H2.
  pose proof (lookup_ptr_frame h2 (meta.Destination ga)) as (_ & _ & H3).
  destruct (lookup_ptr h2 (meta.Destination ga)) as [h3 d]; simpl in H3.
  simpl. auto.
Qed.

Lemma Enrich_assets h event : assets (Enrich h event).1.1 = assets h.
Proof.
  unfold Enrich. destruct (events.GetAsset event) as [ga|]; [| reflexivity].
  pose proof (assetLookup_frame h (meta.Asset_ ga)) as (H1 & _).
  destruct (assetLookup h (meta.Asset_ ga)) as [h1 a]; simpl in H1.
  pose proof (lookup_ptr_frame h1 (meta.Source ga)) as (H2 & _).
  destruct (lookup_ptr h1 (meta.Source ga)) as [h2 s]; simpl in H2.
  pose proof (lookup_ptr_frame h2 (meta.Destination ga)) as (H3 & _).
  destruct (lookup_ptr h2 (meta.Destination ga)) as [h3 d]; simpl in H3.
  simpl. congruence.
Qed.

Lemma Enrich_many_keeps_missing (later : list events.GameEvent) h k :
  is_Some (missingLookupSet h !! k) →
  is_Some (missingLookupSet (foldl (λ h e, (Enrich h e).1.1) h later) !! k).
Proof.
  revert h. induction later as [| e later IH]; intros h Hk; simpl; [exact Hk |].
  apply IH, Enrich_keeps_missing, Hk.
Qed.

End lookup.

(** The missing set lists every key once. *)
Lemma MissingKeys_NoDup h : NoDup (MissingKeys h).
Proof. apply NoDup_fst_map_to_list. Qed.

Lemma elem_of_MissingKeys h k :
  k ∈ MissingKeys h ↔ is_Some (missingLookupSet h !! k).
Proof.
  unfold MissingKeys. rewrite list_elem_of_fmap. split.
  - intros ([k' v] & -> & Hin). apply elem_of_map_to_list in Hin. eauto.
  - intros [v Hv]. exists (k, v). split; [reflexivity |].
    apply elem_of_map_to_list, Hv.
Qed.

Lemma none_when_absent (l : list string) (k : string) :
  k ∉ l → filter (λ x, x = k) l = [].
Proof.
  induction l as [| x l IH]; intros Hk; [reflexivity |].
  apply not_elem_of_cons in Hk as [Hne Hk].
  rewrite filter_cons. destruct (decide (x = k)); [congruence | auto].
Qed.

Lemma once_in_NoDup (l : list string) (k : string) :
  NoDup l → k ∈ l → length (filter (λ x, x = k) l) = 1.
Proof.
  induction 1 as [| x l Hx Hnd IH]; intros Hin.
  - inversion Hin.
  - rewrite filter_cons. destruct (decide (x = k)) as [-> | Hne].
    + simpl. rewrite none_when_absent by exact Hx. reflexivity.
    + apply IH. apply elem_of_cons in Hin as [-> | Hin]; done.
Qed.

Lemma recorded_once h k :
  is_Some (missingLookupSet h !! k) →
  length (filter (λ x, x = k) (MissingKeys h)) = 1.
Proof.
  intros Hk. apply once_in_NoDup; [apply MissingKeys_NoDup |].
  apply elem_of_MissingKeys, Hk.
Qed.

Section enrich.
Context `{!Net}.

(** C6. Without an asset sub-object [Enrich] fails with the missing-asset-data
    error that carries the event, and handler and event are as before. With
    one it returns no error; the asset is replaced by its lookup, source and
    destination are replaced by theirs when they are there and stay nil when
    they are not. *)
Theorem Enrich_needs_asset_data h event :
  (events.GetAsset event = None →
     Enrich h event = (h, event, Some (ErrMissingAssetData event)))
  ∧ (∀ fullAsset, events.GetAsset event = Some fullAsset →
       ∃ h', Enrich h event =
               (h',
                events.set_asset event
                  {| meta.Asset_ := (assetLookup h (meta.Asset_ fullAsset)).2;
                     meta.Source :=
                       (λ s, (assetLookup h s).2) <$> meta.Source fullAsset;
                     meta.Destination :=
                       (λ d, (assetLookup h d).2) <$> meta.Destination fullAsset |},
                None)
             ∧ assets h' = assets h).
Proof.
  split.
  - intros Hnone. unfold Enrich. rewrite Hnone. reflexivity.
  - intros ga Hga. unfold Enrich. rewrite Hga.
    pose proof (assetLookup_frame h (meta.Asset_ ga)) as (H1 & _).
    destruct (assetLookup h (meta.Asset_ ga)) as [h1 a]; simpl in H1 |- *.
    pose proof (lookup_ptr_frame h1 (meta.Source ga)) as (H2 & Hs & _).
    destruct (lookup_ptr h1 (meta.Source ga)) as [h2 s]; simpl in H2, Hs.
    pose proof (lookup_ptr_frame h2 (meta.Destination ga)) as (H3 & Hd & _).
    destruct (lookup_ptr h2 (meta.Destination ga)) as [h3 d]; simpl in H3, Hd.
    exists h3. split; [| congruence].
    subst s d. do 3 f_equal. f_equal.
    + destruct (meta.Source ga) as [x|]; simpl; [| reflexivity].
      f_equal. apply assetLookup_result. exact H1.
    + destruct (meta.Destination ga) as [x|]; simpl; [| reflexivity].
      f_equal. apply assetLookup_result. congruence.
Qed.

(** C7. The lookup tries the printed IP of the stub as a key first, then the
    host when it is not empty. A host that is no key of the registry is put
    into the missing set and the stub comes back as it was; from then on the
    host is listed exactly once, whatever events are enriched later. Nothing
    but such a host is ever put into the set: a stub without host leaves it
    alone, whether its IP was found or not. *)
Theorem assetLookup_order_and_missing_set h stub :
  (∀ ip val,
     meta.IP stub = Some ip → assets h !! IP_String ip = Some val →
     assetLookup h stub = (h, providentia.Asset val))
  ∧ ((meta.IP stub ≫= λ ip, assets h !! IP_String ip) = None →
       (∀ val,
          meta.Host stub ≠ "" → assets h !! meta.Host stub = Some val →
          assetLookup h stub = (h, providentia.Asset val))
       ∧ (meta.Host stub = "" → assetLookup h stub = (h, stub))
       ∧ (meta.Host stub ≠ "" → assets h !! meta.Host stub = None →
            ∃ h', assetLookup h stub = (h', stub)
                  ∧ missingLookupSet h' =
                      <[meta.Host stub := true]> (missingLookupSet h)
                  ∧ ∀ later : list events.GameEvent,
                      length (filter (λ x, x = meta.Host stub)
                                (MissingKeys
                                   (foldl (λ h e, (Enrich h e).1.1) h' later)))
                      = 1))
  ∧ (∀ k, k ∈ MissingKeys (assetLookup h stub).1 →
          k ∈ MissingKeys h
          ∨ k = meta.Host stub ∧ meta.Host stub ≠ ""
            ∧ assets h !! meta.Host stub = None).
Proof.
  split; [| split].
  - intros ip val. apply assetLookup_ip_hit.
  - intros Hip. split; [| split].
    + intros val. apply assetLookup_host_hit. exact Hip.
    + apply assetLookup_no_host. exact Hip.
    + intros Hhost Hmiss. eexists. split; [| split].
      * apply assetLookup_host_miss; assumption.
      * reflexivity.
      * intros later. apply recorded_once, Enrich_many_keeps_missing.
        simpl. rewrite lookup_insert_eq. eauto.
  - intros k. rewrite !elem_of_MissingKeys.
    destruct (assetLookup_frame h stub) as (_ & _ & _ & [-> | (-> & Hhost & Hmiss)]).
    + auto.
    + destruct (decide (meta.Host stub = k)) as [<- | Hne].
      * auto.
      * rewrite lookup_insert_ne by exact Hne. auto.
Qed.

End enrich.

(** C6, the witness: an alert without asset data, and one for a known host. *)
Lemma Enrich_needs_asset_data_witness :
  @Enrich sample.net sample.handler sample.bare
   = (sample.handler, sample.bare, Some (ErrMissingAssetData sample.bare))
  ∧ ∃ h', @Enrich sample.net sample.handler (sample.alert "web01")
          = (h',
             events.Suricata
               {| events.Fields := "alert";
                  events.GameMeta :=
                    Some {| meta.Asset_ := providentia.Asset sample.web01;
                            meta.Source := None;
                            meta.Destination := Some (providentia.Asset sample.web01) |} |},
             None).
Proof.
  split.
  - exact (proj1 (@Enrich_needs_asset_data sample.net sample.handler sample.bare)
             eq_refl).
  - destruct (proj2 (@Enrich_needs_asset_data sample.net sample.handler
                       (sample.alert "web01")) _ eq_refl) as (h' & Heq & _).
    exists h'. exact Heq.
Defined.

(** C7, the witness: web02 is no key of the sample registry. *)
Lemma assetLookup_order_and_missing_set_witness :
  ∃ h', @assetLookup sample.net sample.handler (sample.stub "web02")
          = (h', sample.stub "web02")
        ∧ missingLookupSet h' = {[ "web02" := true ]}
        ∧ length (filter (λ x, x = "web02")
                    (MissingKeys
                       (foldl (λ h e, (@Enrich sample.net h e).1.1) h'
                          [sample.alert "web02"; sample.alert "web02"])))
          = 1.
Proof.
  destruct (proj1 (proj2 (@assetLookup_order_and_missing_set sample.net
                            sample.handler (sample.stub "web02"))))
    as (_ & _ & Hmiss); [reflexivity |].
  destruct Hmiss as (h' & Heq & Hset & Honce);
    [discriminate | reflexivity |].
  exists h'. split; [exact Heq |]. split; [exact Hset |].
  exact (Honce [sample.alert "web02"; sample.alert "web02"]).
Defined.

Section registry.
Context `{!Codec}.

(** The inner loop of [NewHandler]: every key of the record is assigned it. *)
Lemma assign_lookup (obj : providentia.Record_) (keys : list string)
    (m : gmap string providentia.Record_) (k : string) :
  foldl (λ m key, <[key := obj]> m) m keys !! k =
    if decide (k ∈ keys) then Some obj else m !! k.
Proof.
  revert m. induction keys as [| key keys IH]; intros m; cbn [foldl].
  - destruct (decide (k ∈ [])) as [Hin |]; [inversion Hin | reflexivity].
  - rewrite IH. destruct (decide (k ∈ keys)) as [Hin | Hnin].
    + rewrite decide_True by (apply elem_of_cons; auto). reflexivity.
    + destruct (decide (key = k)) as [-> | Hne].
      * rewrite decide_True by (apply elem_of_cons; auto).
        apply lookup_insert_eq.
      * rewrite lookup_insert_ne by exact Hne.
        rewrite decide_False; [reflexivity |].
        intros [-> | Hin]%elem_of_cons; done.
Qed.

Lemma load_decoded items recs m :
  Forall2 (λ it r, gob_Decode (persist.Data it) = inl r) items recs →
  load items m =
    inl (foldl (λ m obj, foldl (λ m key, <[key := obj]> m) m (providentia.Keys obj))
           m recs).
Proof.
  intros Hdec. revert m.
  induction Hdec as [| it r items recs Hit _ IH]; intros m; simpl; [reflexivity |].
  rewrite Hit. apply IH.
Qed.

(** After the outer loop a key holds the last record that exposes it. *)
Lemma loaded_lookup (recs : list providentia.Record_)
    (m : gmap string providentia.Record_) (k : string) :
  foldl (λ m obj, foldl (λ m key, <[key := obj]> m) m (providentia.Keys obj)) m recs
    !! k =
    match last (filter (λ r, k ∈ providentia.Keys r) recs) with
    | Some r => Some r
    | None => m !! k
    end.
Proof.
  revert m. induction recs as [| r recs IH]; intros m; simpl; [reflexivity |].
  rewrite IH, filter_cons, assign_lookup.
  destruct (decide (k ∈ providentia.Keys r)); [| reflexivity].
  rewrite last_cons. destruct (last _); reflexivity.
Qed.

(** C2, as amended. [NewHandler] assigns every key of every scanned record
    without looking whether the key is there: a later record with a
    colliding key replaces the earlier one, so each key ends up with the
    last record that exposes it. The keys of the registry are the union of
    the keys of the records, and [Assets] is their number. *)
Theorem NewHandler_last_writer_wins c p recs :
  Persist c = Some p →
  Forall2 (λ it r, gob_Decode (persist.Data it) = inl r)
    (persist.Scan p badgerPrefix) recs →
  ∃ h, NewHandler c = (Some h, None)
       ∧ (∀ key, assets h !! key =
                 last (filter (λ r, key ∈ providentia.Keys r) recs))
       ∧ dom (assets h) = list_to_set (recs ≫= providentia.Keys)
       ∧ Assets (counts h) = Z.of_nat (size (assets h)).
Proof.
  intros Hp Hdec. unfold NewHandler, Validate. rewrite Hp.
  rewrite (load_decoded _ _ _ Hdec).
  eexists. split; [reflexivity |]. simpl.
  assert (Hlookup : ∀ key,
    foldl (λ m obj, foldl (λ m key, <[key := obj]> m) m (providentia.Keys obj))
      (∅ : gmap string providentia.Record_) recs !! key = last (filter (λ r, key ∈ providentia.Keys r) recs)).
  { intros key. rewrite loaded_lookup, lookup_empty.
    destruct (last _); reflexivity. }
  split; [exact Hlookup |]. split; [| reflexivity].
  apply set_eq. intros k.
  rewrite elem_of_dom, Hlookup, last_is_Some, elem_of_list_to_set,
    list_elem_of_bind.
  split.
  - intros Hne. destruct (filter _ recs) as [| r l] eqn:E; [done |].
    assert (Hr : r ∈ filter (λ r, k ∈ providentia.Keys r) recs)
      by (rewrite E; apply list_elem_of_here).
    apply list_elem_of_filter in Hr as [Hk Hr]. eauto.
  - intros (r & Hk & Hr) E.
    assert (Hin : r ∈ filter (λ r, k ∈ providentia.Keys r) recs)
      by (apply list_elem_of_filter; auto).
    rewrite E in Hin. inversion Hin.
Qed.

End registry.

(** C2, the witness: the sample store holds two records with the key web01. *)
Lemma NewHandler_last_writer_wins_witness :
  ∃ h, @NewHandler sample.codec sample.config = (Some h, None)
       ∧ assets h !! "web01" = Some sample.web01_moved
       ∧ dom (assets h) = {[ "10.0.0.1"; "web01"; "10.0.0.7" ]}.
Proof.
  destruct (@NewHandler_last_writer_wins sample.codec sample.config sample.store
              [sample.web01; sample.web01_moved] eq_refl)
    as (h & Heq & Hlast & Hdom & _).
  - repeat constructor.
  - exists h. split; [exact Heq |]. split; [exact (Hlast "web01") |].
    rewrite Hdom. apply set_eq. intros k. set_solver.
Defined.

(** C2, as stated, fails. The scan of the sample store yields web01 and then
    web01_moved, both with the key web01; were the first writer to win,
    the key would hold web01. *)
Lemma NewHandler_not_first_writer_wins :
  (gob_Decode (Codec := sample.codec) ∘ persist.Data)
     <$> persist.Scan sample.store badgerPrefix
   = [inl sample.web01; inl sample.web01_moved]
  ∧ ¬ ∀ h, @NewHandler sample.codec sample.config = (Some h, None) →
           assets h !! "web01" = Some sample.web01.
Proof.
  split; [reflexivity |]. intros Hfirst.
  specialize (Hfirst _ eq_refl). vm_compute in Hfirst. discriminate Hfirst.
Qed.

End enrich_facts.

(** ** The cache *)

Module intel_facts.
Import intel.

Section cache.
Context `{!Extern} `{!Net}.

(** C1, as amended. Without a directory a miss is answered with a new
    negative record and false, and the record is not stored: the cache is as
    before, so a second call for the same address is a miss again. *)
Theorem GetIP_without_directory g m key now :
  assets g = Some m → m !! IP_String key = None → wise_ g = None →
  GetIP g key now =
    (g, Some {| Data := meta.zero; IsAsset := false; updated := now |}, false)
  ∧ ∀ later,
      GetIP (GetIP g key now).1.1 key later =
        (g, Some {| Data := meta.zero; IsAsset := false; updated := later |}, false).
Proof.
  intros Hm Hmiss Hwise.
  assert (Hone : ∀ t, GetIP g key t =
    (g, Some {| Data := meta.zero; IsAsset := false; updated := t |}, false)).
  { intros t. unfold GetIP. rewrite Hm, Hmiss, Hwise. reflexivity. }
  split; [apply Hone |]. intros later. rewrite Hone. simpl. apply Hone.
Qed.


End cache.

(** C1, the witness: the first two calls for 10.0.0.9 on a new cache. *)
Lemma GetIP_without_directory_witness :
  @GetIP sample.extern sample.net sample.fresh [10; 0; 0; 9]%N 7 =
    (sample.fresh,
     Some {| Data := meta.zero; IsAsset := false; updated := 7 |}, false)
  ∧ @GetIP sample.extern sample.net
      (@GetIP sample.extern sample.net sample.fresh [10; 0; 0; 9]%N 7).1.1
      [10; 0; 0; 9]%N 8 =
    (sample.fresh,
     Some {| Data := meta.zero; IsAsset := false; updated := 8 |}, false).
Proof.
  destruct (@GetIP_without_directory sample.extern sample.net sample.fresh ∅
              [10; 0; 0; 9]%N 7 eq_refl eq_refl eq_refl) as [Hfirst Hsecond].
  split; [exact Hfirst | exact (Hsecond 8%Z)].
Defined.

(** C1, as stated, fails: on the cache the constructor returns without a
    directory, the second call for an address is no hit. *)
Lemma GetIP_second_call_is_no_hit :
  @NewGlobalCache sample.extern sample.net sample.plain ∅ sample.clock
    = (Some sample.fresh, None)
  ∧ ¬ (let '(g1, _, _) :=
         @GetIP sample.extern sample.net sample.fresh [10; 0; 0; 9]%N 7 in
       (@GetIP sample.extern sample.net g1 [10; 0; 0; 9]%N 8).2 = true).
Proof. split; [reflexivity |]. vm_compute. discriminate. Qed.



Section housekeeper.
Context `{!Extern} `{!Net}.

(** The [Range] of the prune branch, started on any map [m0]: a key of the
    map ranged over is gone when its entry is negative and older than the
    period, and every other key holds what it held in [m0]. *)
Lemma prune_fold now p (m0 m : gmap string entry) :
  ∀ k,
    (map_fold (prune_entry now p) (m0, 0%Z, 0%Z) m).1.1 !! k =
      match m !! k with
      | Some v =>
          if bool_decide (period p < time.Sub now (updated (deref v)))%Z
             && negb (IsAsset (deref v))
          then None else m0 !! k
      | None => m0 !! k
      end.
Proof.
  apply (map_fold_weak_ind
    (λ (r : gmap string entry * Z * Z) (m : gmap string entry), ∀ k,
       r.1.1 !! k =
         match m !! k with
         | Some v =>
             if bool_decide (period p < time.Sub now (updated (deref v)))%Z
                && negb (IsAsset (deref v))
             then None else m0 !! k
         | None => m0 !! k
         end)).
  - intros k. rewrite lookup_empty. reflexivity.
  - intros i x m' [[r count] total] Hfresh IH k. simpl in IH.
    unfold prune_entry.
    destruct (decide (i = k)) as [-> | Hne].
    + rewrite lookup_insert_eq.
      destruct (bool_decide _ && negb _) eqn:E; simpl.
      * apply lookup_delete_eq.
      * rewrite IH, Hfresh. reflexivity.
    + rewrite lookup_insert_ne by exact Hne.
      destruct (bool_decide _ && negb _); simpl.
      * rewrite lookup_delete_ne by exact Hne. apply IH.
      * apply IH.
Qed.

(** C3. A prune pass (pruning enabled) deletes exactly the entries that are
    negative and whose age, the time since their last update as [Sub]
    measures it, exceeds the period. A confirmed asset stays, whatever its
    age; a negative entry within the period stays; nothing is added. *)
Theorem prune_pass_deletes_stale_negatives g m now :
  assets g = Some m → enabled (prune_ g) = true →
  ∃ m', on_tick now g = Ok (set_assets m' g)
        ∧ (∀ k v, m !! k = Some v → IsAsset (deref v) = true →
             m' !! k = Some v)
        ∧ (∀ k v, m !! k = Some v → IsAsset (deref v) = false →
             (period (prune_ g) < time.Sub now (updated (deref v)))%Z →
             m' !! k = None)
        ∧ (∀ k v, m !! k = Some v → IsAsset (deref v) = false →
             (time.Sub now (updated (deref v)) ≤ period (prune_ g))%Z →
             m' !! k = Some v)
        ∧ (∀ k, m !! k = None → m' !! k = None).
Proof.
  intros Hm Hon. unfold on_tick. rewrite Hon, Hm. simpl.
  pose proof (prune_fold now (prune_ g) m m) as Hfold.
  destruct (map_fold _ _ m) as [[m' count] total]. simpl in Hfold.
  exists m'. split; [reflexivity |].
  repeat split.
  - intros k v Hk Hpos. rewrite Hfold, Hk, Hpos, andb_false_r. reflexivity.
  - intros k v Hk Hneg Hold. rewrite Hfold, Hk, Hneg.
    rewrite bool_decide_eq_true_2 by exact Hold. reflexivity.
  - intros k v Hk Hneg Hyoung. rewrite Hfold, Hk.
    rewrite bool_decide_eq_false_2 by lia. reflexivity.
  - intros k Hk. rewrite Hfold, Hk. reflexivity.
Qed.

(** With the periods the constructor sets, the select of the loop never
    takes the case of the prune ticker: the dump ticker made in the same
    turn delivers 25 seconds earlier. *)
Lemma select_never_Tick cancel g t0 :
  interval (prune_ g) = (30 * time.Second)%Z →
  dump (persist_ g) = (5 * time.Second)%Z →
  Tick ∉ select cancel g t0.
Proof.
  intros Hi Hd Hin. unfold select in Hin.
  apply list_elem_of_fmap in Hin as ([s t] & Hs & Hin). simpl in Hs. subst s.
  apply list_elem_of_filter in Hin as [Hw Hin]. simpl in Hw.
  unfold wake, ready in *. rewrite Hi, Hd in *. unfold time.Second in *.
  destruct cancel as [c |]; simpl in *;
    repeat (apply elem_of_cons in Hin as [Hin | Hin]; [simplify_eq; lia |]);
    inversion Hin.
Qed.

Lemma NewGlobalCache_periods c fs clock g err :
  NewGlobalCache c fs clock = (Some g, err) →
  interval (prune_ g) = (30 * time.Second)%Z
  ∧ dump (persist_ g) = (5 * time.Second)%Z.
Proof.
  unfold NewGlobalCache, setup_persist.
  destruct (Validate c); [discriminate |].
  destruct (decide (DumpJSONAssets c = "")) as [Hnone | Hsome].
  - destruct (Wise c) as [w |]; [destruct (NewHandle w) as [handle [e |]] |];
      intros [= <- _]; done.
  - destruct (os.Stat fs (DumpJSONAssets c)) as [file | e]; [| discriminate].
    destruct (os.IsDir file); [discriminate |]. simpl.
    destruct (utils.FileNotExists fs (DumpJSONAssets c)).
    + destruct (Wise c) as [w |]; [destruct (NewHandle w) as [handle [e |]] |];
        intros [= <- _]; done.
    + destruct (os.Open fs (DumpJSONAssets c)) as [f | e]; [| discriminate].
      destruct (load _ _ _ _) as [m | e]; [| discriminate].
      destruct (Wise c) as [w |]; [destruct (NewHandle w) as [handle [e |]] |];
        intros [= <- _]; done.
Qed.

(** The dump branch leaves the map and the periods alone. *)
Lemma on_dump_frame g fs g' fs' :
  on_dump g fs = Ok (g', fs') →
  assets g' = assets g ∧ prune_ g' = prune_ g ∧ persist_ g' = persist_ g.
Proof.
  unfold on_dump. destruct (decide (path (persist_ g) = "")); [by intros [= <- <-] |].
  destruct (assets g) as [m |] eqn:Hm; [| discriminate].
  destruct (collect m) as [| a stuff]; [by intros [= <- <-] |].
  destruct (os.Create fs (path (persist_ g))) as [fs1 | e]; [| by intros [= <- <-]].
  destruct (write_all _ _ _); [| discriminate]. by intros [= <- <-].
Qed.

(** A turn of the loop under these periods is a turn of the dump branch. *)
Lemma step_frame cancel st st1 :
  interval (prune_ (cache st)) = (30 * time.Second)%Z →
  dump (persist_ (cache st)) = (5 * time.Second)%Z →
  step cancel st st1 →
  assets (cache st1) = assets (cache st)
  ∧ prune_ (cache st1) = prune_ (cache st)
  ∧ persist_ (cache st1) = persist_ (cache st).
Proof.
  intros Hi Hd Hstep.
  destruct Hstep as [st sig now next st1 Hsel _ _ Hturn]. simpl.
  assert (Hsig : sig ≠ Tick).
  { intros ->. by apply (select_never_Tick cancel (cache st) (at_ st)). }
  unfold turn in Hturn.
  destruct (bool_decide _ || bool_decide _); [discriminate |].
  destruct sig; [discriminate | done |].
  destruct (on_dump (cache st) (files st)) as [[g1 fs1] | why [g1 fs1]] eqn:E;
    [| discriminate].
  injection Hturn as <-. simpl. exact (on_dump_frame _ _ _ _ E).
Qed.

Lemma run_frame cancel st st' :
  rtc (step cancel) st st' →
  interval (prune_ (cache st)) = (30 * time.Second)%Z →
  dump (persist_ (cache st)) = (5 * time.Second)%Z →
  assets (cache st') = assets (cache st)
  ∧ interval (prune_ (cache st')) = (30 * time.Second)%Z
  ∧ dump (persist_ (cache st')) = (5 * time.Second)%Z.
Proof.
  induction 1 as [st | st st1 st2 Hstep _ IH]; intros Hi Hd; [done |].
  destruct (step_frame _ _ _ Hi Hd Hstep) as (Ha & Hp & Hq).
  rewrite <- Ha. apply IH; [rewrite Hp | rewrite Hq]; assumption.
Qed.

(** C8: what the loop does in place of the claim. Take a cache the
    constructor returned, filled by its callers in the meantime. At every
    turn of the housekeeper, whenever the cancellation comes, the select
    does not take the case of the prune ticker, so every state the loop
    reaches has the map it started with, stale negative entries included. *)
Theorem housekeeper_never_prunes c fs clock g err cancel st st' :
  NewGlobalCache c fs clock = (Some g, err) →
  prune_ (cache st) = prune_ g →
  persist_ (cache st) = persist_ g →
  rtc (step cancel) st st' →
  assets (cache st') = assets (cache st)
  ∧ Tick ∉ select cancel (cache st') (at_ st').
Proof.
  intros Hnew Hp Hq Hrun.
  destruct (NewGlobalCache_periods _ _ _ _ _ Hnew) as [Hi Hd].
  rewrite <- Hp in Hi. rewrite <- Hq in Hd.
  destruct (run_frame _ _ _ Hrun Hi Hd) as (Ha & Hi' & Hd').
  split; [exact Ha |]. apply select_never_Tick; assumption.
Qed.

End housekeeper.

(** C3, the witness: at 200 seconds the negative entry of the sample cache,
    written at 0, is deleted and the confirmed asset stays. *)
Lemma prune_pass_deletes_stale_negatives_witness :
  ∃ m', @on_tick (200 * time.Second) sample.stocked
          = Ok (set_assets m' sample.stocked)
        ∧ m' !! "10.0.0.5" = Some (Val sample.db01)
        ∧ m' !! "10.0.0.9" = None.
Proof.
  destruct (prune_pass_deletes_stale_negatives sample.stocked
              {[ "10.0.0.9" := Ptr sample.unknown; "10.0.0.5" := Val sample.db01 ]}
              (200 * time.Second) eq_refl eq_refl)
    as (m' & Heq & Hpos & Hold & _ & _).
  exists m'. split; [exact Heq |]. split.
  - exact (Hpos "10.0.0.5" (Val sample.db01) eq_refl eq_refl).
  - apply (Hold "10.0.0.9" (Ptr sample.unknown) eq_refl eq_refl).
    vm_compute. reflexivity.
Defined.

(** C8, the witness: the housekeeper of the sample cache, started at 200
    seconds. Its first turn is a turn of the dump ticker at 205 seconds, and
    the negative entry written at 0 is still there, 85 seconds past the
    period. *)
Lemma housekeeper_never_prunes_witness :
  ∃ st',
    rtc (@step sample.extern None)
      {| at_ := 200 * time.Second; cache := sample.stocked; files := ∅ |} st'
    ∧ at_ st' = (205 * time.Second)%Z
    ∧ assets (cache st') = assets sample.stocked
    ∧ Tick ∉ select None (cache st') (at_ st').
Proof.
  set (st := {| at_ := 200 * time.Second; cache := sample.stocked; files := ∅ |}).
  assert (Hrun : rtc (@step sample.extern None) st
                   {| at_ := 205 * time.Second; cache := cache st; files := files st |}).
  { apply rtc_once.
    apply (step_turn None st Dump (205 * time.Second) (205 * time.Second) st).
    - assert (Hsel : select None (cache st) (at_ st) = [Dump]) by reflexivity.
      rewrite Hsel. apply list_elem_of_here.
    - vm_compute. discriminate.
    - reflexivity.
    - reflexivity. }
  eexists. split; [exact Hrun |]. split; [reflexivity |].
  exact (@housekeeper_never_prunes sample.extern sample.net sample.plain ∅
           sample.clock sample.fresh None None st _ eq_refl eq_refl eq_refl Hrun).
Defined.

(** *** Lines written and lines read *)

Lemma append_cons (c : ascii) (s t : string) :
  String c s +:+ t = String c (s +:+ t).
Proof. reflexivity. Qed.

Lemma append_nil_r (s : string) : s +:+ "" = s.
Proof.
  induction s as [| c s IH]; [reflexivity |]. by rewrite append_cons, IH.
Qed.

Lemma append_assoc (s1 s2 s3 : string) : (s1 +:+ s2) +:+ s3 = s1 +:+ s2 +:+ s3.
Proof.
  induction s1 as [| c s1 IH]; [reflexivity |]. by rewrite !append_cons, IH.
Qed.




Section dump.
Context `{!Extern} `{!Net}.

Lemma write_all_content stuff js name c0 (fs : gmap string os.node) :
  fs !! name = Some (os.File c0) →
  Forall2 (λ a j, JSON a = inl j) stuff js →
  write_all stuff name fs = Ok (<[name := os.File (c0 +:+ unlines js)]> fs).
Proof.
  intros Hfile Hjs. revert c0 fs Hfile.
  induction Hjs as [| a j stuff js Hj _ IH]; intros c0 fs Hfile; simpl.
  - rewrite append_nil_r, insert_id by exact Hfile. reflexivity.
  - rewrite Hj. unfold os.write. rewrite Hfile.
    rewrite (IH (c0 +:+ j +:+ newline)) by apply lookup_insert_eq.
    rewrite insert_insert_eq, !append_assoc. reflexivity.
Qed.





End dump.



End intel_facts.

(** * Further properties *)

(** ** The enrichment handler: registry, counters, missing set *)

Module enrich_more.
Import enrich.

Section add.
Context `{!Encoder}.

Lemma add_keys_None value keys : foldl (add_key value) None keys = None.
Proof. induction keys as [| key keys IH]; [reflexivity | exact IH]. Qed.

(** The loop of [AddAsset] from any handler on: what it leaves behind when it
    comes to its end. *)
Lemma add_keys_result value keys h h' :
  foldl (add_key value) (Some h) keys = Some h' →
  (∀ k, assets h' !! k =
        match assets h !! k with
        | Some r => Some r
        | None => if decide (k ∈ keys) then Some value else None
        end)
  ∧ missingLookupSet h' = missingLookupSet h
  ∧ size (assets h) ≤ size (assets h')
  ∧ AssetUpdates (counts h') =
      Nat.iter (size (assets h') - size (assets h)) uint_incr
        (AssetUpdates (counts h))
  ∧ Events (counts h') = Events (counts h)
  ∧ MissingMeta (counts h') = MissingMeta (counts h)
  ∧ AssetPickups (counts h') = AssetPickups (counts h)
  ∧ ParseErrs (counts h') = ParseErrs (counts h).
Proof.
  revert h. induction keys as [| key keys IH]; intros h Hfold; cbn [foldl] in Hfold.
  - injection Hfold as <-. rewrite Nat.sub_diag. repeat split; [| lia].
    intros k. destruct (assets h !! k); [reflexivity |].
    destruct (decide (k ∈ [])) as [Hin |]; [inversion Hin | reflexivity].
  - unfold add_key in Hfold at 2.
    destruct (assets h !! key) as [r |] eqn:Hkey.
    + destruct (IH h Hfold) as (Hlook & Hrest). split; [| exact Hrest].
      intros k. rewrite Hlook. destruct (assets h !! k) eqn:Hk; [reflexivity |].
      assert (k ≠ key) by congruence.
      destruct (decide (k ∈ keys)), (decide (k ∈ key :: keys)) as [Hin | Hnin];
        try reflexivity.
      * exfalso. apply Hnin, list_elem_of_further. assumption.
      * apply elem_of_cons in Hin as [-> | Hin]; done.
    + destruct (persist_ h) as [p |]; [| by rewrite add_keys_None in Hfold].
      destruct (IH _ Hfold) as (Hlook & Hmiss & Hsize & Hupd & He & Hm & Hp & Hq).
      simpl in *. rewrite map_size_insert_None in Hsize, Hupd by exact Hkey.
      split; [| repeat split; try assumption; try lia].
      * intros k. rewrite Hlook. destruct (decide (key = k)) as [<- | Hne].
        -- rewrite lookup_insert_eq, Hkey.
           rewrite decide_True by apply list_elem_of_here. reflexivity.
        -- rewrite lookup_insert_ne by exact Hne.
           destruct (assets h !! k); [reflexivity |].
           destruct (decide (k ∈ keys)), (decide (k ∈ key :: keys)) as [Hin | Hnin];
             try reflexivity.
           ++ exfalso. apply Hnin, list_elem_of_further. assumption.
           ++ apply elem_of_cons in Hin as [-> | Hin]; done.
      * rewrite Hupd.
        replace (size (assets h') - size (assets h))
          with (S (size (assets h') - S (size (assets h)))) by lia.
        rewrite Nat.iter_succ_r. reflexivity.
Qed.

Lemma add_keys_total value keys h :
  is_Some (persist_ h) →
  ∃ h', foldl (add_key value) (Some h) keys = Some h'.
Proof.
  revert h. induction keys as [| key keys IH]; intros h [p Hp]; cbn [foldl].
  - eauto.
  - unfold add_key at 2. destruct (assets h !! key); [apply IH; eauto |].
    rewrite Hp. apply IH. simpl. eauto.
Qed.

(** Nothing happens in the loop when every key is there. *)
Lemma add_keys_known value keys h :
  (∀ k, k ∈ keys → is_Some (assets h !! k)) →
  foldl (add_key value) (Some h) keys = Some h.
Proof.
  induction keys as [| key keys IH]; intros Hall; cbn [foldl]; [reflexivity |].
  unfold add_key at 2.
  destruct (Hall key) as [r ->]; [apply list_elem_of_here |].
  apply IH. intros k Hk. apply Hall, list_elem_of_further, Hk.
Qed.

(** X1. [AddAsset] on a handler with a store returns a handler. A key that
    was in the registry keeps its record; every other key of the new record
    is assigned the new record; no other key appears. *)
Theorem AddAsset_first_writer_wins h value :
  is_Some (persist_ h) →
  ∃ h', AddAsset h value = Some h'
        ∧ (∀ k, assets h' !! k =
                match assets h !! k with
                | Some r => Some r
                | None =>
                    if decide (k ∈ providentia.Keys value) then Some value else None
                end)
        ∧ dom (assets h') = dom (assets h) ∪ list_to_set (providentia.Keys value).
Proof.
  intros Hp. unfold AddAsset.
  destruct (add_keys_total value (providentia.Keys value)
              (set_counts incr_AssetPickups h) Hp) as [h1 Hfold].
  rewrite Hfold. destruct (add_keys_result _ _ _ _ Hfold) as (Hlook & _).
  eexists. split; [reflexivity |]. simpl in *. split; [exact Hlook |].
  apply set_eq. intros k.
  rewrite elem_of_union, !elem_of_dom, elem_of_list_to_set, Hlook.
  destruct (assets h !! k) as [r |].
  - split; [eauto | intros _; eauto].
  - destruct (decide (k ∈ providentia.Keys value)) as [Hin | Hnin].
    + split; [auto | eauto].
    + split; [intros [x Hx]; discriminate |].
      intros [[x Hx] | Hin]; [discriminate | done].
Qed.

(** X2. What [AddAsset] does to the counters: one pickup more, as many
    updates more as the registry has grown, [Assets] set to the size of the
    registry; the other counters and the missing set are as before. *)
Theorem AddAsset_counters h value h' :
  AddAsset h value = Some h' →
  AssetPickups (counts h') = uint_incr (AssetPickups (counts h))
  ∧ AssetUpdates (counts h') =
      Nat.iter (size (assets h') - size (assets h)) uint_incr
        (AssetUpdates (counts h))
  ∧ Assets (counts h') = Z.of_nat (size (assets h'))
  ∧ Events (counts h') = Events (counts h)
  ∧ MissingMeta (counts h') = MissingMeta (counts h)
  ∧ ParseErrs (counts h') = ParseErrs (counts h)
  ∧ missingLookupSet h' = missingLookupSet h.
Proof.
  unfold AddAsset.
  destruct (foldl _ _ _) as [h1 |] eqn:Hfold; [| discriminate].
  intros [= <-].
  destruct (add_keys_result _ _ _ _ Hfold)
    as (_ & Hmiss & _ & Hupd & He & Hm & Hp & Hq).
  simpl in *. rewrite Hp. auto 10.
Qed.

(** X3. Adding the same record again changes nothing but the pickup counter:
    registry, store, update counter and [Assets] stay. *)
Theorem AddAsset_again h value h' :
  AddAsset h value = Some h' →
  AddAsset h' value = Some (set_counts incr_AssetPickups h').
Proof.
  unfold AddAsset at 1.
  destruct (foldl _ _ _) as [h1 |] eqn:Hfold; [| discriminate].
  intros [= <-].
  destruct (add_keys_result _ _ _ _ Hfold) as (Hlook & _). simpl in Hlook.
  unfold AddAsset. rewrite add_keys_known; [reflexivity |].
  intros k Hk. simpl. rewrite Hlook.
  destruct (assets h !! k); [eauto |].
  rewrite decide_True by exact Hk. eauto.
Qed.

End add.

Section add_lookup.
Context `{!Encoder} `{!Net}.

(** X4. A record that was added is found by each of its keys: a stub
    without IP whose host is a key of the record resolves to the
    projection of the record the registry holds for that host (the added
    record when the host was new), and the missing set is left alone. *)
Theorem AddAsset_then_assetLookup h value h' stub :
  AddAsset h value = Some h' →
  meta.IP stub = None →
  meta.Host stub ≠ "" →
  meta.Host stub ∈ providentia.Keys value →
  ∃ r, assets h' !! meta.Host stub = Some r
       ∧ assetLookup h' stub = (h', providentia.Asset r)
       ∧ (assets h !! meta.Host stub = None → r = value).
Proof.
  intros Hadd Hip Hhost Hkey. unfold AddAsset in Hadd.
  destruct (foldl _ _ _) as [h1 |] eqn:Hfold; [| discriminate].
  injection Hadd as <-.
  destruct (add_keys_result _ _ _ _ Hfold) as (Hlook & _). simpl in Hlook.
  pose proof (Hlook (meta.Host stub)) as Hr.
  rewrite decide_True in Hr by exact Hkey.
  destruct (assets h !! meta.Host stub) as [r0 |] eqn:Hold.
  - exists r0. split; [exact Hr |]. split; [| discriminate].
    apply enrich_facts.assetLookup_host_hit; [by rewrite Hip | exact Hhost | exact Hr].
  - exists value. split; [exact Hr |]. split; [| reflexivity].
    apply enrich_facts.assetLookup_host_hit; [by rewrite Hip | exact Hhost | exact Hr].
Qed.

End add_lookup.

Section frame.
Context `{!Net}.

Lemma lookup_ptr_added h p k :
  let h' := (lookup_ptr h p).1 in
  counts h' = counts h ∧ persist_ h' = persist_ h
  ∧ (is_Some (missingLookupSet h' !! k) →
     is_Some (missingLookupSet h !! k)
     ∨ ∃ a, p = Some a ∧ k = meta.Host a ∧ k ≠ "" ∧ assets h !! k = None).
Proof.
  destruct p as [a |]; simpl; [| auto].
  pose proof (enrich_facts.assetLookup_frame h a) as (_ & Hc & Hp & Hm).
  destruct (assetLookup h a) as [h' a']; simpl in *.
  split; [exact Hc |]. split; [exact Hp |].
  destruct Hm as [-> | (-> & Hhost & Hnone)]; [auto |].
  destruct (decide (meta.Host a = k)) as [<- | Hne].
  - intros _. right. exists a. auto.
  - rewrite lookup_insert_ne by exact Hne. auto.
Qed.

(** X5. [Enrich] touches nothing of the handler but the missing set: the
    registry, every counter ([MissingMeta] too) and the store are as before.
    A key is new in the missing set only when it is the host of the asset,
    source or destination stub of the event, not empty and no key of the
    registry. *)
Theorem Enrich_frame h event :
  let h' := (Enrich h event).1.1 in
  assets h' = assets h ∧ counts h' = counts h ∧ persist_ h' = persist_ h
  ∧ ∀ k, k ∈ MissingKeys h' →
      k ∈ MissingKeys h
      ∨ k ≠ "" ∧ assets h !! k = None
        ∧ ∃ fullAsset, events.GetAsset event = Some fullAsset
            ∧ (k = meta.Host (meta.Asset_ fullAsset)
               ∨ (∃ s, meta.Source fullAsset = Some s ∧ k = meta.Host s)
               ∨ (∃ d, meta.Destination fullAsset = Some d ∧ k = meta.Host d)).
Proof.
  unfold Enrich. destruct (events.GetAsset event) as [ga |]; simpl; [| auto].
  pose proof (enrich_facts.assetLookup_frame h (meta.Asset_ ga))
    as (Ha1 & Hc1 & Hp1 & Hm1).
  destruct (assetLookup h (meta.Asset_ ga)) as [h1 a]; simpl in *.
  pose proof (enrich_facts.lookup_ptr_frame h1 (meta.Source ga)) as (Ha2 & _).
  pose proof (lookup_ptr_added h1 (meta.Source ga)) as Hadd2.
  destruct (lookup_ptr h1 (meta.Source ga)) as [h2 s]; simpl in *.
  pose proof (enrich_facts.lookup_ptr_frame h2 (meta.Destination ga)) as (Ha3 & _).
  pose proof (lookup_ptr_added h2 (meta.Destination ga)) as Hadd3.
  destruct (lookup_ptr h2 (meta.Destination ga)) as [h3 d]; simpl in *.
  destruct (Hadd2 "") as (Hc2 & Hp2 & _). destruct (Hadd3 "") as (Hc3 & Hp3 & _).
  split; [congruence |]. split; [congruence |]. split; [congruence |].
  intros k. rewrite !enrich_facts.elem_of_MissingKeys. intros Hk.
  destruct (Hadd3 k) as (_ & _ & H3). destruct (Hadd2 k) as (_ & _ & H2).
  destruct (H3 Hk) as [Hk2 | (x & Hd & -> & Hne & Hnone)].
  - destruct (H2 Hk2) as [Hk1 | (x & Hs & -> & Hne & Hnone)].
    + destruct Hm1 as [Hm1 | (Hm1 & Hne & Hnone)]; rewrite Hm1 in Hk1; [auto |].
      destruct (decide (meta.Host (meta.Asset_ ga) = k)) as [<- | Hkne].
      * right. split; [exact Hne |]. split; [exact Hnone |]. exists ga. auto.
      * rewrite lookup_insert_ne in Hk1 by exact Hkne. auto.
    + right. split; [exact Hne |]. split; [congruence |].
      exists ga. split; [reflexivity |]. right. left. eauto.
  - right. split; [exact Hne |]. split; [congruence |].
    exists ga. split; [reflexivity |]. right. right. eauto.
Qed.

End frame.

Section decode.
Context `{!Codec}.

(** X6. For a kind with a case in the switch, [Decode] returns an event or an
    error and never both or neither; registry, missing set and store are
    not touched, and the parse-error counters move only with an error. *)
Theorem Decode_event_or_error h raw kind :
  is_Some (counter_of kind) →
  ∃ h' event err,
    Decode h raw kind = (h', event, err)
    ∧ (event = None ↔ is_Some err)
    ∧ assets h' = assets h
    ∧ missingLookupSet h' = missingLookupSet h
    ∧ persist_ h' = persist_ h
    ∧ (err = None → ParseErrs (counts h') = ParseErrs (counts h)).
Proof.
  intros [c Hc].
  destruct kind; simpl in Hc; try discriminate; simpl;
    match goal with |- context [match ?u raw with _ => _ end] =>
      destruct (u raw) as [obj | msg] end;
    eexists _, _, _; (split; [reflexivity |]); simpl;
    (split; [split; [discriminate || eauto | intros [? ?]; congruence] |]);
    repeat split; discriminate.
Qed.

(** X7. [NewHandler] without a store fails with the missing-persistence
    error. With a store, the first scanned item that does not decode ends
    the construction: no handler is returned, and the error is that
    item's, whatever follows it. *)
Theorem NewHandler_errors c :
  (Persist c = None → NewHandler c = (None, Some ErrMissingPersist))
  ∧ ∀ p good bad rest msg,
      Persist c = Some p →
      persist.Scan p badgerPrefix = good ++ bad :: rest →
      Forall (λ it, ∃ r, gob_Decode (persist.Data it) = inl r) good →
      gob_Decode (persist.Data bad) = inr msg →
      NewHandler c = (None, Some (ErrGob msg)).
Proof.
  split.
  - intros Hp. unfold NewHandler, Validate. rewrite Hp. reflexivity.
  - intros p good bad rest msg Hp Hscan Hgood Hbad.
    unfold NewHandler, Validate. rewrite Hp, Hscan.
    assert (Hload : ∀ m, load (good ++ bad :: rest) m = inr (ErrGob msg)).
    { clear Hscan. induction Hgood as [| it good [r Hr] _ IH]; intros m; simpl.
      - rewrite Hbad. reflexivity.
      - rewrite Hr. apply IH. }
    rewrite Hload. reflexivity.
Qed.

End decode.

(** X8. [MissingKeys] lists the keys of the missing set, each of them once,
    and nothing else; its length is the size of the set. *)
Theorem MissingKeys_lists_each_once h :
  NoDup (MissingKeys h)
  ∧ (∀ k, k ∈ MissingKeys h ↔ is_Some (missingLookupSet h !! k))
  ∧ length (MissingKeys h) = size (missingLookupSet h).
Proof.
  split; [apply NoDup_fst_map_to_list |]. split.
  - apply enrich_facts.elem_of_MissingKeys.
  - unfold MissingKeys. rewrite length_fmap. apply length_map_to_list.
Qed.

(** X1, the witness: the moved web01 added to the sample registry, which
    knows the host already and the address not yet. *)
Lemma AddAsset_first_writer_wins_witness :
  ∃ h', @AddAsset sample.encoder sample.handler sample.web01_moved = Some h'
        ∧ assets h' !! "web01" = Some sample.web01
        ∧ assets h' !! "10.0.0.7" = Some sample.web01_moved
        ∧ assets h' !! "10.0.0.8" = None.
Proof.
  destruct (@AddAsset_first_writer_wins sample.encoder sample.handler
              sample.web01_moved (mk_is_Some _ _ eq_refl))
    as (h' & Hadd & Hlook & _).
  exists h'. split; [exact Hadd |].
  split; [exact (Hlook "web01") |].
  split; [exact (Hlook "10.0.0.7") | exact (Hlook "10.0.0.8")].
Defined.

(** X2, the witness: the same call counts one pickup and one update. *)
Lemma AddAsset_counters_witness :
  let h' := default sample.handler
              (@AddAsset sample.encoder sample.handler sample.web01_moved) in
  AssetPickups (counts h') = 1%Z
  ∧ AssetUpdates (counts h') = 1%Z
  ∧ Assets (counts h') = 3%Z.
Proof.
  intros h'.
  destruct (@AddAsset_counters sample.encoder sample.handler sample.web01_moved
              h' eq_refl) as (Hp & Hu & Ha & _).
  split; [exact Hp |]. split; [exact Hu | exact Ha].
Defined.

(** X3, the witness: the second call with the moved web01. *)
Lemma AddAsset_again_witness :
  let h' := default sample.handler
              (@AddAsset sample.encoder sample.handler sample.web01_moved) in
  @AddAsset sample.encoder h' sample.web01_moved
  = Some (set_counts incr_AssetPickups h').
Proof.
  intros h'.
  exact (@AddAsset_again sample.encoder sample.handler sample.web01_moved h'
           eq_refl).
Defined.

(** X4, the witness: the new address resolves to the moved web01. *)
Lemma AddAsset_then_assetLookup_witness :
  let h' := default sample.handler
              (@AddAsset sample.encoder sample.handler sample.web01_moved) in
  ∃ r, assets h' !! "10.0.0.7" = Some r
       ∧ @assetLookup sample.net h' (sample.stub "10.0.0.7")
         = (h', providentia.Asset r)
       ∧ r = sample.web01_moved.
Proof.
  intros h'.
  destruct (@AddAsset_then_assetLookup sample.encoder sample.net sample.handler
              sample.web01_moved h' (sample.stub "10.0.0.7") eq_refl eq_refl)
    as (r & Hr & Hlook & Hnew).
  - discriminate.
  - apply list_elem_of_here.
  - exists r. split; [exact Hr |]. split; [exact Hlook | exact (Hnew eq_refl)].
Defined.

(** X6, the witness: a Snoopy record that decodes. *)
Lemma Decode_event_or_error_witness :
  ∃ h' event err,
    @Decode sample.codec sample.handler "{}" events.SnoopyE = (h', event, err)
    ∧ (event = None ↔ is_Some err)
    ∧ assets h' = assets sample.handler.
Proof.
  destruct (@Decode_event_or_error sample.codec sample.handler "{}"
              events.SnoopyE (mk_is_Some _ _ eq_refl))
    as (h' & event & err & Heq & Hxor & Ha & _).
  exists h', event, err. auto.
Defined.

(** X7, the witness: the damaged sample store. *)
Lemma NewHandler_errors_witness :
  @NewHandler sample.codec {| Persist := Some sample.damaged |}
  = (None, Some (ErrGob "gob: unknown type")).
Proof.
  apply (proj2 (@NewHandler_errors sample.codec
                  {| Persist := Some sample.damaged |})
           sample.damaged
           [ {| persist.Key := "10.0.0.1"; persist.Data := "gob:web01" |} ]
           {| persist.Key := "10.0.0.3"; persist.Data := "junk" |}
           [ {| persist.Key := "10.0.0.7"; persist.Data := "gob:web01_moved" |} ]).
  - reflexivity.
  - reflexivity.
  - repeat constructor. exists sample.web01. reflexivity.
  - reflexivity.
Defined.

Section restart.
Context `{!Codec} `{!Encoder}.

Lemma put_fresh (it : persist.Item) (l : list persist.Item) :
  (∀ x, x ∈ l → persist.Key x ≠ persist.Key it) →
  persist.put it l = l ++ [it].
Proof.
  induction l as [| x l IH]; intros Hfresh; simpl; [reflexivity |].
  destruct (decide (persist.Key x = persist.Key it)) as [Heq | _].
  - exfalso. exact (Hfresh x (list_elem_of_here _ _) Heq).
  - f_equal. apply IH. intros y Hy. apply Hfresh, list_elem_of_further, Hy.
Qed.

(** What the loop of [AddAsset] hands to the store: one item for each key
    that was new, after the items that were there. *)
Lemma add_keys_store value keys h h' p :
  foldl (add_key value) (Some h) keys = Some h' →
  persist_ h = Some p →
  (∀ it, it ∈ persist.Scan p badgerPrefix → is_Some (assets h !! persist.Key it)) →
  ∃ p' added,
    persist_ h' = Some p'
    ∧ persist.Scan p' badgerPrefix =
        persist.Scan p badgerPrefix
        ++ ((λ k, {| persist.Key := k; persist.Data := gob_Encode value |})
              <$> added)
    ∧ ∀ k, k ∈ added ↔ k ∈ keys ∧ assets h !! k = None.
Proof.
  revert h p. induction keys as [| key keys IH]; intros h p Hfold Hp Hitems;
    cbn [foldl] in Hfold.
  - injection Hfold as <-. exists p, []. split; [exact Hp |].
    split; [by rewrite app_nil_r |].
    intros k. split; [intros Hk; inversion Hk | intros [Hk _]; inversion Hk].
  - unfold add_key in Hfold at 2.
    destruct (assets h !! key) as [r |] eqn:Hkey.
    + destruct (IH h p Hfold Hp Hitems) as (p' & added & Hp' & Hscan & Hadded).
      exists p', added. split; [exact Hp' |]. split; [exact Hscan |].
      intros k. rewrite Hadded, elem_of_cons. split; [tauto |].
      intros [[-> | Hk] Hnone]; [congruence | auto].
    + rewrite Hp in Hfold.
      set (it := {| persist.Key := key; persist.Data := gob_Encode value |}) in *.
      assert (Hput : persist.Scan (persist.Set_ p badgerPrefix it) badgerPrefix
                     = persist.Scan p badgerPrefix ++ [it]).
      { unfold persist.Set_ at 1, persist.Scan at 1. simpl.
        rewrite lookup_insert_eq. simpl. apply put_fresh.
        intros x Hx Heq. destruct (Hitems x Hx) as [r Hr].
        simpl in Heq. congruence. }
      destruct (IH _ _ Hfold eq_refl) as (p' & added & Hp' & Hscan & Hadded).
      { simpl. intros x. rewrite Hput, elem_of_app, list_elem_of_singleton.
        intros [Hx | ->].
        - destruct (decide (key = persist.Key x)) as [<- | Hne].
          + rewrite lookup_insert_eq. eauto.
          + rewrite lookup_insert_ne by exact Hne. apply Hitems, Hx.
        - simpl. rewrite lookup_insert_eq. eauto. }
      exists p', (key :: added). split; [exact Hp' |]. split.
      * rewrite Hscan, Hput, <- app_assoc. reflexivity.
      * intros k. rewrite !elem_of_cons, Hadded. simpl.
        destruct (decide (key = k)) as [<- | Hne].
        -- rewrite lookup_insert_eq. split; [auto | auto].
        -- rewrite lookup_insert_ne by exact Hne. split.
           ++ intros [-> | [Hk Hnone]]; [done | auto].
           ++ intros [[-> | Hk] Hnone]; [done | auto].
Qed.

(** The keys of a registry loaded from decoded records. *)
Lemma loaded_dom (recs : list providentia.Record_) :
  dom (foldl (λ m obj, foldl (λ m key, <[key := obj]> m) m (providentia.Keys obj))
         (∅ : gmap string providentia.Record_) recs)
  = list_to_set (recs ≫= providentia.Keys).
Proof.
  apply set_eq. intros k.
  rewrite elem_of_dom, enrich_facts.loaded_lookup, lookup_empty,
    elem_of_list_to_set, list_elem_of_bind.
  destruct (last (filter _ recs)) as [r |] eqn:E.
  - apply last_Some_elem_of, list_elem_of_filter in E as [Hk Hr].
    split; [eauto | intros _; eauto].
  - apply last_None in E. split; [intros [x Hx]; discriminate |].
    intros (r & Hk & Hr).
    assert (Hin : r ∈ filter (λ r, k ∈ providentia.Keys r) recs)
      by (apply list_elem_of_filter; auto).
    rewrite E in Hin. inversion Hin.
Qed.

(** X9. The keys of the registry survive a restart. Take a handler whose
    store holds records that decode, each under one of its own keys, and
    whose registry has the keys of these records. After [AddAsset] of a
    record that gob gives back as it was, the same holds again, and
    [NewHandler] on the store as it is then builds a registry with the same
    keys. *)
Theorem registry_keys_survive_restart h value h' p recs :
  gob_Decode (gob_Encode value) = inl value →
  persist_ h = Some p →
  Forall2 (λ it r, gob_Decode (persist.Data it) = inl r
                   ∧ persist.Key it ∈ providentia.Keys r)
    (persist.Scan p badgerPrefix) recs →
  dom (assets h) = list_to_set (recs ≫= providentia.Keys) →
  AddAsset h value = Some h' →
  ∃ p' recs',
    persist_ h' = Some p'
    ∧ Forall2 (λ it r, gob_Decode (persist.Data it) = inl r
                       ∧ persist.Key it ∈ providentia.Keys r)
        (persist.Scan p' badgerPrefix) recs'
    ∧ dom (assets h') = list_to_set (recs' ≫= providentia.Keys)
    ∧ ∃ h'', NewHandler {| Persist := Some p' |} = (Some h'', None)
             ∧ dom (assets h'') = dom (assets h').
Proof.
  intros Hgob Hp Hrecs Hdom Hadd. unfold AddAsset in Hadd.
  destruct (foldl _ _ _) as [h1 |] eqn:Hfold; [| discriminate].
  injection Hadd as <-.
  destruct (add_keys_result _ _ _ _ Hfold) as (Hlook & _). simpl in Hlook.
  destruct (add_keys_store _ _ _ _ p Hfold Hp) as (p' & added & Hp' & Hscan & Hadded).
  { simpl. intros it Hit. apply elem_of_dom. rewrite Hdom.
    apply elem_of_list_to_set, list_elem_of_bind.
    apply list_elem_of_lookup in Hit as [i Hi].
    destruct (Forall2_lookup_l _ _ _ _ _ Hrecs Hi) as (r & Hr & _ & Hkey).
    exists r. split; [exact Hkey |]. apply list_elem_of_lookup. eauto. }
  simpl in Hadded.
  set (recs' := recs ++ ((λ _, value) <$> added)).
  assert (Hrecs' : Forall2 (λ it r, gob_Decode (persist.Data it) = inl r
                                    ∧ persist.Key it ∈ providentia.Keys r)
                     (persist.Scan p' badgerPrefix) recs').
  { rewrite Hscan. apply Forall2_app; [exact Hrecs |].
    apply Forall2_fmap, Forall_Forall2_diag, Forall_forall.
    intros k Hk. simpl. split; [exact Hgob | apply Hadded, Hk]. }
  assert (Hdom' : dom (assets h1) = list_to_set (recs' ≫= providentia.Keys)).
  { apply set_eq. intros k. unfold recs'.
    rewrite bind_app, elem_of_list_to_set, elem_of_app, elem_of_dom, Hlook.
    rewrite <- (elem_of_list_to_set (C := gset string) k (recs ≫= _)), <- Hdom,
      elem_of_dom, list_elem_of_bind.
    destruct (assets h !! k) as [r |] eqn:Hk.
    - split; [eauto | intros _; eauto].
    - destruct (decide (k ∈ providentia.Keys value)) as [Hin | Hnin].
      + split; [intros _ | eauto]. right. exists value. split; [exact Hin |].
        apply list_elem_of_fmap. exists k. split; [reflexivity |].
        apply Hadded. auto.
      + split; [intros [x Hx]; discriminate |].
        intros [[x Hx] | (r & Hin & Hr)]; [discriminate |].
        apply list_elem_of_fmap in Hr as (k' & -> & _). done. }
  exists p', recs'. simpl. split; [exact Hp' |]. split; [exact Hrecs' |].
  split; [exact Hdom' |].
  unfold NewHandler, Validate. simpl.
  rewrite (enrich_facts.load_decoded _ recs').
  - eexists. split; [reflexivity |]. simpl. rewrite loaded_dom, Hdom'. reflexivity.
  - eapply Forall2_impl; [exact Hrecs' |]. intros it r [Hr _]. exact Hr.
Qed.

End restart.

(** X9, the witness: the moved web01 added to the handler of the small
    store. *)
Lemma registry_keys_survive_restart_witness :
  let h' := default sample.small
              (@AddAsset sample.encoder sample.small sample.web01_moved) in
  ∃ p' h'',
    persist_ h' = Some p'
    ∧ @NewHandler sample.codec {| Persist := Some p' |} = (Some h'', None)
    ∧ dom (assets h'') = dom (assets h').
Proof.
  intros h'.
  destruct (@registry_keys_survive_restart sample.codec sample.encoder
              sample.small sample.web01_moved h' sample.small_store
              [sample.web01] eq_refl eq_refl)
    as (p' & recs' & Hp' & _ & _ & h'' & Hnew & Hdom).
  - repeat constructor.
  - simpl. rewrite dom_insert_L, dom_singleton_L. apply set_eq. intros k.
    rewrite !elem_of_union, !elem_of_singleton, elem_of_empty. tauto.
  - reflexivity.
  - exists p', h''. auto.
Defined.

End enrich_more.

(** ** The enrichment handler: what a registry answers *)

Module enrich_answers.
Import enrich.

Section answers.
Context `{!Codec} `{!Net}.

(** X22. After [NewHandler], every key of every record of the store
    resolves: a stub without IP whose host is such a key comes back as the
    projection of a stored record with that key (the last one in the scan),
    and nothing is put into the missing set. *)
Theorem NewHandler_then_assetLookup c p recs r stub :
  Persist c = Some p →
  Forall2 (λ it r, gob_Decode (persist.Data it) = inl r)
    (persist.Scan p badgerPrefix) recs →
  r ∈ recs →
  meta.IP stub = None →
  meta.Host stub ≠ "" →
  meta.Host stub ∈ providentia.Keys r →
  ∃ h r',
    NewHandler c = (Some h, None)
    ∧ last (filter (λ r, meta.Host stub ∈ providentia.Keys r) recs) = Some r'
    ∧ assetLookup h stub = (h, providentia.Asset r')
    ∧ missingLookupSet h = ∅.
Proof.
  intros Hp Hdec Hr Hip Hhost Hkey.
  unfold NewHandler, Validate. rewrite Hp.
  rewrite (enrich_facts.load_decoded _ _ _ Hdec).
  destruct (last (filter (λ r, meta.Host stub ∈ providentia.Keys r) recs))
    as [r' |] eqn:Hlast.
  - eexists _, r'. split; [reflexivity |]. split; [reflexivity |].
    split; [| reflexivity].
    apply enrich_facts.assetLookup_host_hit; [by rewrite Hip | exact Hhost |].
    simpl. rewrite enrich_facts.loaded_lookup, Hlast. reflexivity.
  - apply last_None in Hlast.
    assert (Hin : r ∈ filter (λ r, meta.Host stub ∈ providentia.Keys r) recs)
      by (apply list_elem_of_filter; auto).
    rewrite Hlast in Hin. inversion Hin.
Qed.

Lemma assetLookup_unknown h a :
  assets h = ∅ →
  ∃ h', assetLookup h a = (h', a)
        ∧ assets h' = ∅
        ∧ ∀ k, is_Some (missingLookupSet h' !! k) ↔
               is_Some (missingLookupSet h !! k) ∨ k ≠ "" ∧ k = meta.Host a.
Proof.
  intros Hempty. unfold assetLookup. rewrite Hempty.
  assert (Hip : match meta.IP a with
                | Some ip => (∅ : gmap string providentia.Record_) !! IP_String ip
                | None => None
                end = None) by (destruct (meta.IP a); [apply lookup_empty | done]).
  rewrite Hip. destruct (decide (meta.Host a = "")) as [Hnone | Hhost].
  - exists h. split; [reflexivity |]. split; [exact Hempty |].
    intros k. split; [auto | intros [Hk | [Hne ->]]; done].
  - rewrite lookup_empty. eexists. split; [reflexivity |]. simpl.
    split; [reflexivity |]. intros k.
    destruct (decide (meta.Host a = k)) as [<- | Hne].
    + rewrite lookup_insert_eq. split; [auto | eauto].
    + rewrite lookup_insert_ne by exact Hne.
      split; [auto | intros [Hk | [_ ->]]; done].
Qed.

Lemma lookup_ptr_unknown h p :
  assets h = ∅ →
  ∃ h', lookup_ptr h p = (h', p)
        ∧ assets h' = ∅
        ∧ ∀ k, is_Some (missingLookupSet h' !! k) ↔
               is_Some (missingLookupSet h !! k)
               ∨ k ≠ "" ∧ ∃ a, p = Some a ∧ k = meta.Host a.
Proof.
  intros Hempty. destruct p as [a |]; simpl.
  - destruct (assetLookup_unknown h a Hempty) as (h' & -> & He & Hk).
    exists h'. split; [reflexivity |]. split; [exact He |].
    intros k. rewrite Hk. split.
    + intros [? | [? ->]]; eauto.
    + intros [? | [? (a' & [= <-] & ->)]]; auto.
  - exists h. split; [reflexivity |]. split; [exact Hempty |].
    intros k. split; [auto | intros [? | [_ (a & Ha & _)]]; done].
Qed.

(** X23. With an empty registry [Enrich] degrades to a record of what is
    unknown: the event comes back as it was, without error, and the missing
    set gains exactly the hosts of its asset, source and destination stubs
    that are not empty. *)
Theorem Enrich_with_empty_registry h event fullAsset :
  assets h = ∅ →
  events.GetAsset event = Some fullAsset →
  ∃ h', Enrich h event = (h', event, None)
        ∧ ∀ k, k ∈ MissingKeys h' ↔
               k ∈ MissingKeys h
               ∨ k ≠ ""
                 ∧ (k = meta.Host (meta.Asset_ fullAsset)
                    ∨ (∃ s, meta.Source fullAsset = Some s ∧ k = meta.Host s)
                    ∨ (∃ d, meta.Destination fullAsset = Some d
                            ∧ k = meta.Host d)).
Proof.
  intros Hempty Hga. unfold Enrich. rewrite Hga.
  destruct (assetLookup_unknown h (meta.Asset_ fullAsset) Hempty)
    as (h1 & -> & He1 & Hk1).
  destruct (lookup_ptr_unknown h1 (meta.Source fullAsset) He1)
    as (h2 & -> & He2 & Hk2).
  destruct (lookup_ptr_unknown h2 (meta.Destination fullAsset) He2)
    as (h3 & -> & He3 & Hk3).
  exists h3. split.
  - f_equal. f_equal.
    destruct event as [[f gm] | [f gm] | [f gm] | [f gm]], fullAsset;
      unfold events.GetAsset in Hga; simpl in *; subst gm; reflexivity.
  - intros k. rewrite !enrich_facts.elem_of_MissingKeys, Hk3, Hk2, Hk1. tauto.
Qed.

End answers.

(** X22, the witness: the host web01 against the sample store. *)
Lemma NewHandler_then_assetLookup_witness :
  ∃ h, @NewHandler sample.codec sample.config = (Some h, None)
       ∧ @assetLookup sample.net h (sample.stub "web01")
         = (h, providentia.Asset sample.web01_moved).
Proof.
  destruct (@NewHandler_then_assetLookup sample.codec sample.net sample.config
              sample.store [sample.web01; sample.web01_moved] sample.web01
              (sample.stub "web01") eq_refl)
    as (h & r' & Hnew & Hlast & Hlook & _).
  - repeat constructor.
  - apply list_elem_of_here.
  - reflexivity.
  - discriminate.
  - apply list_elem_of_further, list_elem_of_here.
  - exists h. split; [exact Hnew |].
    vm_compute in Hlast. injection Hlast as <-. exact Hlook.
Defined.

(** X23, the witness: a flow between three hosts and a handler that knows
    none. *)
Lemma Enrich_with_empty_registry_witness :
  ∃ h', @Enrich sample.net
          {| counts := counts sample.handler; missingLookupSet := ∅;
             assets := ∅; persist_ := None |}
          (sample.flow "web02" "" "db07")
        = (h', sample.flow "web02" "" "db07", None)
        ∧ ("web02" ∈ MissingKeys h' ∧ "db07" ∈ MissingKeys h')
        ∧ "" ∉ MissingKeys h'.
Proof.
  destruct (@Enrich_with_empty_registry sample.net
              {| counts := counts sample.handler; missingLookupSet := ∅;
                 assets := ∅; persist_ := None |}
              (sample.flow "web02" "" "db07")
              {| meta.Asset_ := sample.stub "web02";
                 meta.Source := Some (sample.stub "");
                 meta.Destination := Some (sample.stub "db07") |}
              eq_refl eq_refl)
    as (h' & Heq & Hkeys).
  exists h'. split; [exact Heq |]. split; [split |].
  - apply Hkeys. right. split; [discriminate | left; reflexivity].
  - apply Hkeys. right. split; [discriminate |]. right. right. eauto.
  - intros Hin. apply Hkeys in Hin as [Hin | [Hne _]]; [| done].
    unfold MissingKeys in Hin. simpl in Hin. rewrite map_to_list_empty in Hin.
    inversion Hin.
Defined.

End enrich_answers.

(** ** The cache: lookups, pruning, dumping, loading, the loop *)

Module intel_more.
Import intel.

Section lookups.
Context `{!Extern} `{!Net}.

(** X10. With a directory, a miss stores what it hands out: the record is
    stamped with the time of the call and put under the printed address, and
    every later call for that address is a hit with the same record that
    leaves the cache as it is. *)
Theorem GetIP_miss_then_hit g m key now :
  assets g = Some m → m !! IP_String key = None → is_Some (wise_ g) →
  ∃ g1 a,
    GetIP g key now = (g1, Some a, false)
    ∧ updated a = now
    ∧ assets g1 = Some (<[IP_String key := Ptr a]> m)
    ∧ ∀ later, GetIP g1 key later = (g1, Some a, true).
Proof.
  intros Hm Hmiss [w Hw]. unfold GetIP at 1. rewrite Hm, Hmiss, Hw.
  destruct (GetAsset w key _ _ _) as [[data ok] [e |]]; [| destruct ok];
    (eexists _, _; split; [reflexivity |]; split; [reflexivity |];
     split; [reflexivity |]; intros later; unfold GetIP; simpl;
     rewrite lookup_insert_eq; reflexivity).
Qed.

(** X11. What the directory decides. The record of a miss is confirmed, with
    the data of the directory, exactly when the directory reports no error
    and a find; otherwise it is negative with empty data. An error of the
    directory does not fail the call: it goes to the error channel, which
    takes it when it holds fewer than [Max] errors and drops it otherwise. *)
Theorem GetIP_directory_outcome g m key now w data ok err :
  assets g = Some m → m !! IP_String key = None → wise_ g = Some w →
  GetAsset w key (FieldPrefix +:+ ".original") (FieldPrefix +:+ ".pretty")
    (FieldPrefix +:+ ".kernel") = (data, ok, err) →
  let found := match err with Some _ => false | None => ok end in
  ∃ g1,
    GetIP g key now =
      (g1,
       Some {| Data := if found then data else meta.zero;
               IsAsset := found; updated := now |},
       false)
    ∧ utils.Items (Errs g1) =
        match err with
        | Some e =>
            if (length (utils.Items (Errs g)) <? utils.Max (Errs g))%nat
            then utils.Items (Errs g) ++ [ErrWise e]
            else utils.Items (Errs g)
        | None => utils.Items (Errs g)
        end
    ∧ utils.Max (Errs g1) = utils.Max (Errs g).
Proof.
  intros Hm Hmiss Hw Hdir. unfold GetIP. rewrite Hm, Hmiss, Hw, Hdir.
  destruct err as [e |]; [| destruct ok]; simpl;
    (eexists; split; [reflexivity |]); simpl; try done.
  unfold utils.Send. destruct (_ <? _)%nat; done.
Qed.

(** X12. [GetIP] never evicts and never overwrites: every entry of the
    cache is there afterwards as it was, whatever the call did, and the
    settings of the cache are untouched. *)
Theorem GetIP_keeps_entries g key now :
  let g1 := (GetIP g key now).1.1 in
  persist_ g1 = persist_ g ∧ prune_ g1 = prune_ g ∧ wise_ g1 = wise_ g
  ∧ networks g1 = networks g
  ∧ match assets g with
    | None => assets g1 = None
    | Some m => ∃ m1, assets g1 = Some m1 ∧ m ⊆ m1
    end.
Proof.
  unfold GetIP. destruct (assets g) as [m |] eqn:Hm; [| simpl; by rewrite Hm].
  destruct (m !! IP_String key) as [[v | v] |] eqn:Hkey; simpl;
    try (rewrite Hm; repeat split; try done; by exists m).
  destruct (wise_ g) as [w |] eqn:Hw; simpl;
    [| rewrite Hm; repeat split; try done; by exists m].
  destruct (GetAsset w key _ _ _) as [[data ok] [e |]]; [| destruct ok]; simpl;
    rewrite ?Hw; (repeat split; try done);
    (eexists; split; [reflexivity |]); apply insert_subseteq, Hkey.
Qed.

End lookups.

Section pruning.
Context `{!Extern} `{!Net}.

(** The map after a prune pass, key by key. *)
Lemma on_tick_lookup now g m :
  assets g = Some m → enabled (prune_ g) = true →
  ∃ m', on_tick now g = Ok (set_assets m' g)
        ∧ ∀ k, m' !! k =
            match m !! k with
            | Some v =>
                if bool_decide (period (prune_ g)
                                < time.Sub now (updated (deref v)))%Z
                   && negb (IsAsset (deref v))
                then None else Some v
            | None => None
            end.
Proof.
  intros Hm Hon. unfold on_tick. rewrite Hon, Hm. simpl.
  pose proof (intel_facts.prune_fold now (prune_ g) m m) as Hfold.
  destruct (map_fold _ _ m) as [[m' count] total]. simpl in Hfold.
  exists m'. split; [reflexivity |]. intros k. rewrite Hfold.
  destruct (m !! k) as [v |] eqn:Hk; rewrite ?Hk; reflexivity.
Qed.

(** X13. The life of a record the directory decided on. If the directory
    did not confirm the address, a prune pass later than the period after the
    miss deletes the record, and the next call for the address is a miss
    again. If it confirmed the address, the record is there after any prune
    pass, and the next call is a hit. *)
Theorem GetIP_then_prune g m key now w data ok err later :
  assets g = Some m → m !! IP_String key = None → wise_ g = Some w →
  enabled (prune_ g) = true →
  GetAsset w key (FieldPrefix +:+ ".original") (FieldPrefix +:+ ".pretty")
    (FieldPrefix +:+ ".kernel") = (data, ok, err) →
  let found := match err with Some _ => false | None => ok end in
  ∃ g2 m2,
    on_tick later (GetIP g key now).1.1 = Ok g2
    ∧ assets g2 = Some m2
    ∧ (found = true →
         is_Some (m2 !! IP_String key) ∧ ∀ t, (GetIP g2 key t).2 = true)
    ∧ (found = false →
         (period (prune_ g) < time.Sub later now)%Z →
         m2 !! IP_String key = None ∧ ∀ t, (GetIP g2 key t).2 = false).
Proof.
  intros Hm Hmiss Hw Hon Hdir found.
  assert (Hget : ∃ g1 e1,
    (GetIP g key now).1.1 = g1 ∧ prune_ g1 = prune_ g
    ∧ assets g1 = Some (<[IP_String key :=
        Ptr {| Data := if found then data else meta.zero;
               IsAsset := found; updated := now |}]> m)
    ∧ wise_ g1 = Some w ∧ Errs g1 = e1).
  { unfold GetIP. rewrite Hm, Hmiss, Hw, Hdir. unfold found.
    destruct err as [e |]; [| destruct ok]; simpl; eexists _, _; done. }
  destruct Hget as (g1 & e1 & -> & Hp1 & Ha1 & Hw1 & _).
  destruct (on_tick_lookup later g1 _ Ha1) as (m2 & Htick & Hlook);
    [by rewrite Hp1 |].
  exists (set_assets m2 g1), m2. split; [exact Htick |].
  split; [reflexivity |].
  pose proof (Hlook (IP_String key)) as Hkey.
  rewrite lookup_insert_eq in Hkey. simpl in Hkey. rewrite Hp1 in Hkey.
  split.
  - intros Hf. rewrite Hf, andb_false_r in Hkey.
    split; [rewrite Hkey; eauto |].
    intros t. unfold GetIP. simpl. rewrite Hkey. reflexivity.
  - intros Hf Hold. rewrite Hf, bool_decide_eq_true_2 in Hkey by exact Hold.
    simpl in Hkey. split; [exact Hkey |].
    intros t. unfold GetIP. simpl. rewrite Hkey, Hw1.
    destruct (GetAsset w key _ _ _) as [[d o] [e |]]; [| destruct o]; reflexivity.
Qed.

(** X14. A prune pass done again at the same instant changes nothing. *)
Theorem on_tick_idempotent now g g1 :
  on_tick now g = Ok g1 → on_tick now g1 = Ok g1.
Proof.
  unfold on_tick at 1.
  destruct (enabled (prune_ g)) eqn:Hon; simpl.
  - destruct (assets g) as [m |] eqn:Hm; [| discriminate].
    intros Hfirst.
    destruct (on_tick_lookup now g m Hm Hon) as (m1 & Htick & Hlook).
    unfold on_tick in Htick. rewrite Hon, Hm in Htick. simpl in Htick.
    rewrite Htick in Hfirst. injection Hfirst as <-.
    destruct (on_tick_lookup now (set_assets m1 g) m1 eq_refl Hon)
      as (m2 & Htick2 & Hlook2).
    rewrite Htick2. f_equal. simpl in Hlook2.
    assert (m2 = m1) as ->; [| reflexivity].
    apply map_eq. intros k. rewrite Hlook2.
    destruct (m1 !! k) as [v |] eqn:Hk; [| reflexivity].
    rewrite Hlook in Hk. destruct (m !! k) as [v0 |]; [| discriminate].
    destruct (bool_decide _ && negb _) eqn:E; [discriminate |].
    injection Hk as <-. rewrite E. reflexivity.
  - intros [= <-]. unfold on_tick. rewrite Hon. reflexivity.
Qed.

End pruning.

Section dumping.
Context `{!Extern} `{!Net}.

(** What the dump collects from any map: the confirmed assets. *)
Lemma collect_confirmed (m : gmap string entry) :
  collect m =
    filter (λ a, IsAsset a = true) ((deref ∘ snd) <$> reverse (map_to_list m)).
Proof.
  unfold collect. rewrite map_fold_foldr.
  induction (map_to_list m) as [| [k v] l IH]; [reflexivity |].
  simpl. rewrite IH, reverse_cons, fmap_app, filter_app. simpl.
  rewrite filter_cons, filter_nil. simpl.
  destruct (IsAsset (deref v)) eqn:E.
  - rewrite decide_True by reflexivity. reflexivity.
  - rewrite decide_False by discriminate. by rewrite app_nil_r.
Qed.

Lemma elem_of_collect (m : gmap string entry) (a : Asset) :
  a ∈ collect m ↔ IsAsset a = true ∧ ∃ k v, m !! k = Some v ∧ deref v = a.
Proof.
  rewrite collect_confirmed, list_elem_of_filter, list_elem_of_fmap.
  split.
  - intros [Hpos ([k v] & -> & Hin)]. split; [exact Hpos |].
    apply elem_of_reverse, elem_of_map_to_list in Hin. eauto.
  - intros [Hpos (k & v & Hk & <-)]. split; [exact Hpos |].
    exists (k, v). split; [reflexivity |].
    apply elem_of_reverse, elem_of_map_to_list, Hk.
Qed.

Lemma write_all_panic pre a post js name c0 why (fs : gmap string os.node) :
  fs !! name = Some (os.File c0) →
  Forall2 (λ a j, JSON a = inl j) pre js →
  JSON a = inr why →
  write_all (pre ++ a :: post) name fs =
    Panic why (<[name := os.File (c0 +:+ unlines js)]> fs).
Proof.
  intros Hfile Hjs Hbad. revert c0 fs Hfile.
  induction Hjs as [| b j pre js Hj _ IH]; intros c0 fs Hfile; simpl.
  - rewrite Hbad, intel_facts.append_nil_r, insert_id by exact Hfile. reflexivity.
  - rewrite Hj. unfold os.write. rewrite Hfile.
    rewrite (IH (c0 +:+ j +:+ newline)) by apply lookup_insert_eq.
    rewrite insert_insert_eq, !intel_facts.append_assoc. reflexivity.
Qed.

Lemma on_dump_content g m fs js :
  assets g = Some m →
  path (persist_ g) ≠ "" →
  fs !! path (persist_ g) ≠ Some os.Dir →
  (∀ reads, fs !! path (persist_ g) ≠ Some (os.Device reads)) →
  collect m ≠ [] →
  Forall2 (λ a j, JSON a = inl j) (collect m) js →
  on_dump g fs = Ok (g, <[path (persist_ g) := os.File (unlines js)]> fs).
Proof.
  intros Hm Hpath Hnode Hdev Hsome Hjs.
  unfold on_dump. destruct (decide _) as [? | _]; [done |]. rewrite Hm.
  destruct (collect m) as [| a stuff] eqn:Estuff; [done |].
  assert (Hcreate : os.Create fs (path (persist_ g))
                    = inl (<[path (persist_ g) := os.File ""]> fs)).
  { unfold os.Create.
    destruct (fs !! path (persist_ g)) as [[| c0 | reads] |] eqn:E;
      [done | done | by destruct (Hdev reads) | done]. }
  rewrite Hcreate.
  rewrite (intel_facts.write_all_content _ js _ "") by
    (apply lookup_insert_eq || exact Hjs).
  rewrite insert_insert_eq. reflexivity.
Qed.

(** X15. A dump to a path that names a regular file, or nothing yet,
    replaces the file by the JSON objects of the confirmed assets, one per
    line, and of nothing else: a negative entry is never written, and what
    the file held before is gone. The cache is as before. *)
Theorem on_dump_writes_confirmed_only g m fs js :
  assets g = Some m →
  path (persist_ g) ≠ "" →
  fs !! path (persist_ g) ≠ Some os.Dir →
  (∀ reads, fs !! path (persist_ g) ≠ Some (os.Device reads)) →
  collect m ≠ [] →
  Forall2 (λ a j, JSON a = inl j) (collect m) js →
  on_dump g fs = Ok (g, <[path (persist_ g) := os.File (unlines js)]> fs)
  ∧ ∀ a, a ∈ collect m ↔
         IsAsset a = true ∧ ∃ k v, m !! k = Some v ∧ deref v = a.
Proof.
  intros Hm Hpath Hnode Hdev Hsome Hjs.
  split; [by apply (on_dump_content g m) | apply elem_of_collect].
Qed.

(** X17. A confirmed asset without JSON form makes the dump to a regular
    file panic, and by then the file is truncated: it holds the lines of the
    assets collected before that one and nothing of what it held. *)
Theorem on_dump_panics_after_truncating g m fs pre a post js why :
  assets g = Some m →
  path (persist_ g) ≠ "" →
  fs !! path (persist_ g) ≠ Some os.Dir →
  (∀ reads, fs !! path (persist_ g) ≠ Some (os.Device reads)) →
  collect m = pre ++ a :: post →
  Forall2 (λ a j, JSON a = inl j) pre js →
  JSON a = inr why →
  on_dump g fs =
    Panic why (g, <[path (persist_ g) := os.File (unlines js)]> fs).
Proof.
  intros Hm Hpath Hnode Hdev Hstuff Hjs Hbad.
  unfold on_dump. destruct (decide _) as [? | _]; [done |]. rewrite Hm, Hstuff.
  destruct (pre ++ a :: post) as [| b rest] eqn:E;
    [by destruct pre |]. rewrite <- E. clear E.
  assert (Hcreate : os.Create fs (path (persist_ g))
                    = inl (<[path (persist_ g) := os.File ""]> fs)).
  { unfold os.Create.
    destruct (fs !! path (persist_ g)) as [[| c0 | reads] |] eqn:E;
      [done | done | by destruct (Hdev reads) | done]. }
  rewrite Hcreate.
  rewrite (write_all_panic pre a post js _ "" why) by
    (apply lookup_insert_eq || assumption).
  rewrite insert_insert_eq. reflexivity.
Qed.

End dumping.

Section loading.
Context `{!Extern} `{!Net}.

(** The load loop over lines that all unmarshal, from the i-th call of
    [time.Now] on: a key holds the last record printed as it, stored by
    value and stamped at its line. *)
Lemma load_all lines objs clock :
  Forall2 (λ line a, Unmarshal line = inl a) lines objs →
  ∀ i m0, ∃ m1,
    load lines clock i m0 = inl m1
    ∧ ∀ k, m1 !! k =
        match last (filter (λ a, String_ (meta.IP (Data a)) = k)
                      (imap (λ j a, Update (clock (i + j)) a) objs)) with
        | Some a => Some (Val a)
        | None => m0 !! k
        end.
Proof.
  induction 1 as [| line a lines objs Ha _ IH]; intros i m0; simpl.
  - exists m0. split; [reflexivity |]. intros k. reflexivity.
  - rewrite Ha. simpl.
    destruct (IH (S i) (<[String_ (meta.IP (Data a)) := Val (Update (clock i) a)]> m0))
      as (m1 & Hload & Hlook).
    exists m1. split; [exact Hload |]. intros k. rewrite Hlook.
    rewrite Nat.add_0_r.
    rewrite (imap_ext (λ j a, Update (clock (S i + j)) a)
               ((λ j a, Update (clock (i + j)) a) ∘ S) objs)
      by (intros j x _; simpl; by rewrite Nat.add_succ_r).
    rewrite filter_cons. simpl.
    destruct (decide (String_ (meta.IP (Data a)) = k)) as [<- | Hne].
    + rewrite last_cons. destruct (last _); [reflexivity |].
      apply lookup_insert_eq.
    + destruct (last _); [reflexivity |]. by rewrite lookup_insert_ne.
Qed.

Lemma load_malformed good bad rest why clock :
  Forall (λ line, ∃ a, Unmarshal line = inl a) good →
  Unmarshal bad = inr why →
  ∀ i m0, load (good ++ bad :: rest) clock i m0 = inr (ErrJSON why).
Proof.
  intros Hgood Hbad. induction Hgood as [| line good [a Ha] _ IH];
    intros i m0; simpl.
  - rewrite Hbad. reflexivity.
  - rewrite Ha. apply IH.
Qed.

(** The set-up of a persistence path that names a regular file comes down to
    the load of its lines. *)
Lemma setup_persist_file c fs clock gc0 content :
  DumpJSONAssets c ≠ "" →
  fs !! DumpJSONAssets c = Some (os.File content) →
  assets gc0 = Some ∅ →
  setup_persist c fs clock gc0 =
    match load (bufio.Scan content) clock 0 ∅ with
    | inr err => inr err
    | inl m =>
        inl (set_assets m
               {| assets := assets gc0; networks := networks gc0;
                  persist_ := {| dump := dump (persist_ gc0);
                                 path := DumpJSONAssets c |};
                  prune_ := prune_ gc0; wise_ := wise_ gc0; Errs := Errs gc0 |})
    end.
Proof.
  intros Hpath Hfile Hempty.
  unfold setup_persist, os.Stat, os.Open, utils.FileNotExists.
  destruct (decide (DumpJSONAssets c = "")) as [Hnone | _]; [done |].
  rewrite Hfile. simpl. rewrite Hfile.
  rewrite bool_decide_eq_false_2 by discriminate.
  rewrite Hempty. reflexivity.
Qed.

(** X18. A line of the persistence file that does not unmarshal is fatal:
    the constructor returns no cache and the error of the first such line,
    whatever the lines before it loaded and whatever follows. *)
Theorem NewGlobalCache_malformed_line c fs clock content good bad rest why :
  Validate c = None →
  DumpJSONAssets c ≠ "" →
  fs !! DumpJSONAssets c = Some (os.File content) →
  bufio.Scan content = good ++ bad :: rest →
  Forall (λ line, ∃ a, Unmarshal line = inl a) good →
  Unmarshal bad = inr why →
  NewGlobalCache c fs clock = (None, Some (ErrJSON why)).
Proof.
  intros Hvalid Hpath Hfile Hscan Hgood Hbad.
  unfold NewGlobalCache. rewrite Hvalid.
  match goal with
  | |- context [setup_persist c fs clock ?gc0] =>
      rewrite (setup_persist_file c fs clock gc0 content Hpath Hfile eq_refl)
  end.
  rewrite Hscan, (load_malformed good bad rest why clock Hgood Hbad).
  reflexivity.
Qed.

(** X19. When every line of the persistence file unmarshals, the constructor
    returns a cache that holds, under each printed address, the record of
    the last line with that address, stored by value and stamped with the
    time its line was read; an address of no line is not in the cache. *)
Theorem NewGlobalCache_last_line_wins c fs clock content objs :
  Validate c = None →
  DumpJSONAssets c ≠ "" →
  fs !! DumpJSONAssets c = Some (os.File content) →
  Forall2 (λ line a, Unmarshal line = inl a) (bufio.Scan content) objs →
  ∃ gc err m,
    NewGlobalCache c fs clock = (Some gc, err)
    ∧ assets gc = Some m
    ∧ ∀ k, m !! k =
        Val <$> last (filter (λ a, String_ (meta.IP (Data a)) = k)
                        (imap (λ i a, Update (clock i) a) objs)).
Proof.
  intros Hvalid Hpath Hfile Hlines.
  destruct (load_all _ _ clock Hlines 0 ∅) as (m & Hload & Hlook).
  unfold NewGlobalCache. rewrite Hvalid.
  match goal with
  | |- context [setup_persist c fs clock ?gc0] =>
      rewrite (setup_persist_file c fs clock gc0 content Hpath Hfile eq_refl)
  end.
  rewrite Hload.
  assert (Hm : ∀ k, m !! k =
            Val <$> last (filter (λ a, String_ (meta.IP (Data a)) = k)
                            (imap (λ i a, Update (clock i) a) objs))).
  { intros k. rewrite Hlook. simpl. destruct (last _); [reflexivity |].
    apply lookup_empty. }
  destruct (Wise c) as [w |]; [| by eexists _, _, _].
  destruct (NewHandle w) as [handle [e |]]; by eexists _, _, _.
Qed.

End loading.

Section loop.
Context `{!Extern} `{!Net}.

(** X20. Once the context is cancelled, a turn of the loop that starts
    takes the case of the cancellation and nothing else, and the loop is
    left: there is no further dump and no further prune pass. *)
Theorem no_turn_after_cancellation c st :
  (0 < interval (prune_ (cache st)))%Z →
  (0 < dump (persist_ (cache st)))%Z →
  (c ≤ at_ st)%Z →
  select (Some c) (cache st) (at_ st) = [Done]
  ∧ ∀ st', ¬ step (Some c) st st'.
Proof.
  intros Hi Hd Hc.
  assert (Hsel : select (Some c) (cache st) (at_ st) = [Done]).
  { unfold select, wake, ready. simpl.
    rewrite (Z.max_r c (at_ st)) by exact Hc.
    rewrite !filter_cons, filter_nil. simpl.
    repeat case_decide; try lia. reflexivity. }
  split; [exact Hsel |].
  intros st' Hstep. inversion Hstep as [st0 sig now next st1 Hin _ _ Hturn]; subst.
  rewrite Hsel in Hin. apply list_elem_of_singleton in Hin as ->.
  unfold turn in Hturn. destruct (_ || _); discriminate.
Qed.

Lemma on_tick_frame now g g' :
  on_tick now g = Ok g' → prune_ g' = prune_ g ∧ persist_ g' = persist_ g.
Proof.
  unfold on_tick. destruct (negb _); [by intros [= <-] |].
  destruct (assets g) as [m |]; [| discriminate].
  destruct (map_fold _ _ m) as [[m' count] total]. by intros [= <-].
Qed.

Lemma select_longer_period cancel g t0 :
  (dump (persist_ g) < interval (prune_ g) → Tick ∉ select cancel g t0)%Z
  ∧ (interval (prune_ g) < dump (persist_ g) → Dump ∉ select cancel g t0)%Z.
Proof.
  split; intros Hlt Hin; unfold select in Hin;
    apply list_elem_of_fmap in Hin as ([s t] & Hs & Hin); simpl in Hs; subst s;
    apply list_elem_of_filter in Hin as [Hw Hin]; simpl in Hw;
    unfold wake, ready in *;
    destruct cancel as [c |]; simpl in *;
    repeat (apply elem_of_cons in Hin as [Hin | Hin]; [simplify_eq; lia |]);
    inversion Hin.
Qed.

(** X21. Of the two tickers the one with the longer period never delivers,
    whatever the periods are: a dump period below the prune interval means no
    prune pass at all, and a prune interval below the dump period means no
    dump, so that no run of the loop ever changes a file. *)
Theorem longer_ticker_never_delivers cancel :
  (∀ g t0, (dump (persist_ g) < interval (prune_ g))%Z →
           Tick ∉ select cancel g t0)
  ∧ (∀ g t0, (interval (prune_ g) < dump (persist_ g))%Z →
             Dump ∉ select cancel g t0)
  ∧ ∀ st st',
      (interval (prune_ (cache st)) < dump (persist_ (cache st)))%Z →
      rtc (step cancel) st st' →
      files st' = files st.
Proof.
  split; [intros g t0; apply select_longer_period |].
  split; [intros g t0; apply select_longer_period |].
  intros st st' Hlt Hrun.
  induction Hrun as [st | st st1 st2 Hstep _ IH]; [reflexivity |].
  destruct Hstep as [st sig now next st1 Hsel _ _ Hturn]. simpl in IH.
  assert (Hsig : sig ≠ Dump).
  { intros ->. by apply (proj2 (select_longer_period cancel (cache st) (at_ st))). }
  unfold turn in Hturn. destruct (_ || _); [discriminate |].
  destruct sig; [discriminate | | done].
  destruct (on_tick now (cache st)) as [g1 | why g1] eqn:E; [| discriminate].
  injection Hturn as <-. simpl in IH.
  destruct (on_tick_frame _ _ _ E) as [Hp Hq].
  rewrite Hp, Hq in IH. apply IH, Hlt.
Qed.

End loop.

(** X10, the witness: 10.0.0.5 asked twice of the cache with the sample
    directory. *)
Lemma GetIP_miss_then_hit_witness :
  ∃ g1 a,
    @GetIP sample.directory sample.net sample.served [10; 0; 0; 5]%N 7
      = (g1, Some a, false)
    ∧ updated a = 7%Z
    ∧ @GetIP sample.directory sample.net g1 [10; 0; 0; 5]%N 9
      = (g1, Some a, true).
Proof.
  destruct (@GetIP_miss_then_hit sample.directory sample.net sample.served ∅
              [10; 0; 0; 5]%N 7 eq_refl eq_refl (mk_is_Some _ _ eq_refl))
    as (g1 & a & Hget & Hnow & _ & Hhit).
  exists g1, a. split; [exact Hget |]. split; [exact Hnow | exact (Hhit 9%Z)].
Defined.

(** X11, the witness: the directory fails on 10.0.0.66. *)
Lemma GetIP_directory_outcome_witness :
  ∃ g1,
    @GetIP sample.directory sample.net sample.served [10; 0; 0; 66]%N 7
      = (g1, Some {| Data := meta.zero; IsAsset := false; updated := 7 |}, false)
    ∧ utils.Items (Errs g1) = [ErrWise "timeout"].
Proof.
  destruct (@GetIP_directory_outcome sample.directory sample.net sample.served ∅
              [10; 0; 0; 66]%N 7
              {| wise.Opened := {| wise.Endpoint := "http://wise:8081" |} |}
              meta.zero false (Some "timeout") eq_refl eq_refl eq_refl eq_refl)
    as (g1 & Hget & Hitems & _).
  exists g1. split; [exact Hget | exact Hitems].
Defined.

(** X13, the witness: 10.0.0.9, unknown to the directory, asked at 0 and
    pruned at 200 seconds. *)
Lemma GetIP_then_prune_witness :
  ∃ g2 m2,
    on_tick (200 * time.Second)
      (@GetIP sample.directory sample.net sample.served [10; 0; 0; 9]%N 0).1.1
      = Ok g2
    ∧ assets g2 = Some m2
    ∧ m2 !! "10.0.0.9" = None
    ∧ (@GetIP sample.directory sample.net g2 [10; 0; 0; 9]%N (201 * time.Second)).2
      = false.
Proof.
  destruct (@GetIP_then_prune sample.directory sample.net sample.served ∅
              [10; 0; 0; 9]%N 0
              {| wise.Opened := {| wise.Endpoint := "http://wise:8081" |} |}
              meta.zero false None (200 * time.Second)
              eq_refl eq_refl eq_refl eq_refl eq_refl)
    as (g2 & m2 & Htick & Hm2 & _ & Hneg).
  destruct (Hneg eq_refl) as [Hgone Hmiss]; [vm_compute; reflexivity |].
  exists g2, m2. split; [exact Htick |]. split; [exact Hm2 |].
  split; [exact Hgone | exact (Hmiss (201 * time.Second)%Z)].
Defined.

(** X14, the witness: the sample cache pruned twice at 200 seconds. *)
Lemma on_tick_idempotent_witness :
  ∃ g1, on_tick (200 * time.Second) sample.stocked = Ok g1
        ∧ on_tick (200 * time.Second) g1 = Ok g1.
Proof.
  destruct (on_tick (200 * time.Second) sample.stocked) as [g1 | why g1] eqn:E.
  - exists g1. split; [reflexivity |].
    exact (on_tick_idempotent (200 * time.Second) sample.stocked g1 E).
  - vm_compute in E. discriminate E.
Defined.

(** X15, the witness: the cache with two assets and a negative entry, dumped
    over a file that held a line. *)
Lemma on_dump_writes_confirmed_only_witness :
  @on_dump sample.extern sample.mixed (sample.disk "stale")
  = Ok (sample.mixed,
        sample.disk
          (unlines [ "{Host:db02,IP:10.0.0.6,IsAsset:true}";
                     "{Host:db01,IP:10.0.0.5,IsAsset:true}" ])).
Proof.
  destruct (@on_dump_writes_confirmed_only sample.extern sample.mixed
              {[ "10.0.0.5" := Ptr sample.db01; "10.0.0.6" := Val sample.db02;
                 "10.0.0.9" := Ptr sample.unknown ]}
              (sample.disk "stale")
              [ "{Host:db02,IP:10.0.0.6,IsAsset:true}";
                "{Host:db01,IP:10.0.0.5,IsAsset:true}" ])
    as [Hdump _].
  - reflexivity.
  - discriminate.
  - discriminate.
  - intros reads. discriminate.
  - vm_compute. discriminate.
  - vm_compute. repeat constructor.
  - rewrite Hdump. reflexivity.
Defined.

(** X17, the witness: an asset the sample JSON form refuses, dumped over the
    file of an earlier run. *)
Lemma on_dump_panics_after_truncating_witness :
  @on_dump sample.directory sample.spoiled (sample.disk sample.earlier_run)
  = Panic "unsupported value" (sample.spoiled, sample.disk "").
Proof.
  rewrite (@on_dump_panics_after_truncating sample.directory sample.spoiled
             {[ "10.0.0.4" := Val sample.bad ]}
             (sample.disk sample.earlier_run) [] sample.bad [] []
             "unsupported value").
  - reflexivity.
  - reflexivity.
  - discriminate.
  - discriminate.
  - intros reads. discriminate.
  - reflexivity.
  - constructor.
  - reflexivity.
Defined.

(** X18, the witness: a good line followed by garbage. *)
Lemma NewGlobalCache_malformed_line_witness :
  @NewGlobalCache sample.extern sample.net sample.persistent
    (sample.disk (sample.earlier_run +:+ "garbage")) sample.clock
  = (None, Some (ErrJSON "invalid character")).
Proof.
  apply (@NewGlobalCache_malformed_line sample.extern sample.net
           sample.persistent _ sample.clock (sample.earlier_run +:+ "garbage")
           ["{Host:db02,IP:10.0.0.6,IsAsset:true}"] "garbage" []).
  - reflexivity.
  - discriminate.
  - reflexivity.
  - vm_compute. reflexivity.
  - repeat constructor. exists sample.db02. reflexivity.
  - reflexivity.
Defined.

(** X19, the witness: two lines for db02 with one for db01 in between. *)
Lemma NewGlobalCache_last_line_wins_witness :
  ∃ gc err m,
    @NewGlobalCache sample.extern sample.net sample.persistent
      (sample.disk sample.twice) sample.clock = (Some gc, err)
    ∧ assets gc = Some m
    ∧ m !! "10.0.0.6" = Some (Val (Update (sample.clock 2) sample.db02))
    ∧ m !! "10.0.0.5" = Some (Val (Update (sample.clock 1) sample.db01))
    ∧ m !! "10.0.0.7" = None.
Proof.
  destruct (@NewGlobalCache_last_line_wins sample.extern sample.net
              sample.persistent (sample.disk sample.twice) sample.clock
              sample.twice [sample.db02; sample.db01; sample.db02])
    as (gc & err & m & Hnew & Hgc & Hlook).
  - reflexivity.
  - discriminate.
  - reflexivity.
  - vm_compute. repeat constructor.
  - exists gc, err, m. split; [exact Hnew |]. split; [exact Hgc |].
    split; [exact (Hlook "10.0.0.6") |].
    split; [exact (Hlook "10.0.0.5") | exact (Hlook "10.0.0.7")].
Defined.

(** X20, the witness: the sample cache, cancelled at 100 seconds, at a turn
    that starts at 200. *)
Lemma no_turn_after_cancellation_witness :
  select (Some (100 * time.Second)%Z) sample.stocked (200 * time.Second) = [Done].
Proof.
  destruct (@no_turn_after_cancellation sample.extern (100 * time.Second)
              {| at_ := 200 * time.Second; cache := sample.stocked; files := ∅ |})
    as [Hsel _]; [reflexivity | reflexivity | vm_compute; discriminate |].
  exact Hsel.
Defined.

(** X21, the witness: the periods of the sample cache. *)
Lemma longer_ticker_never_delivers_witness :
  Tick ∉ select None sample.stocked (200 * time.Second).
Proof.
  apply (proj1 (@longer_ticker_never_delivers sample.extern None)
           sample.stocked (200 * time.Second)%Z).
  reflexivity.
Defined.

End intel_more.
